(** * A login system over MySQL: the credential flows of [main.py]

    The development embeds [src/main.py] shallowly: Python values are Rocq
    values, console, database and entropy are fields of an explicit [World]
    that every operation threads through, and a Python exception is the
    [Raise] outcome of a small state-and-exception monad.

    The bcrypt and passlib bindings and the MySQL driver are not code of the
    program; they enter as a [Backend] record of operations and, where a
    property needs one, as a stated law of that backend.  The table behind
    the connection is modelled directly, from the schema [setup_table]
    creates. *)

From Stdlib Require Import List NArith ZArith Bool Lia String Ascii Eqdep_dec.
Import ListNotations.

Set Implicit Arguments.
Local Open Scope N_scope.

(** ** Python values *)

(** A [str] is a sequence of Unicode code points, a [bytes] a sequence of
    octets; both are lists of numbers. *)
Definition pystr := list N.
Definition pybytes := list N.

(** An ASCII literal of the source, as a [str]. *)
Definition lit (s : string) : pystr := map N_of_ascii (list_ascii_of_string s).

(** [str.isspace] on one code point: the code points Python treats as
    whitespace, which are the ones [str.strip()] removes. *)
Definition isspace (c : N) : bool :=
  ((0x09 <=? c) && (c <=? 0x0D)) || ((0x1C <=? c) && (c <=? 0x20))
  || (c =? 0x85) || (c =? 0xA0) || (c =? 0x1680)
  || ((0x2000 <=? c) && (c <=? 0x200A))
  || (c =? 0x2028) || (c =? 0x2029) || (c =? 0x202F) || (c =? 0x205F)
  || (c =? 0x3000).

Fixpoint lstrip (s : pystr) : pystr :=
  match s with
  | c :: s' => if isspace c then lstrip s' else s
  | [] => []
  end.

Definition rstrip (s : pystr) : pystr := rev (lstrip (rev s)).

(** [s.strip()] *)
Definition strip (s : pystr) : pystr := rstrip (lstrip s).

(** Truthiness of a [str]: [not s] holds of the empty string only. *)
Definition is_empty (s : pystr) : bool :=
  match s with [] => true | _ :: _ => false end.

(** [a == b] on strings. *)
Fixpoint str_eqb (a b : pystr) : bool :=
  match a, b with
  | [], [] => true
  | x :: a', y :: b' => (x =? y) && str_eqb a' b'
  | _, _ => false
  end.

(** ** Exceptions *)

Inductive exn : Type :=
| EOFError
| UnicodeEncodeError
| UnicodeDecodeError
| ValueError (msg : string)
| TypeError (msg : string)
| IntegrityError
| DataError
| ProgrammingError
| SystemExit (code : Z)
| KeyboardInterrupt
| OtherException (name : string).

(** [isinstance(e, Exception)]: what a clause [except Exception] catches.
    [SystemExit] and [KeyboardInterrupt] derive from [BaseException] only. *)
Definition is_Exception (e : exn) : bool :=
  match e with
  | SystemExit _ | KeyboardInterrupt => false
  | _ => true
  end.

(** The result of evaluating a Python expression. *)
Inductive outcome (A : Type) : Type :=
| Ok (a : A)
| Raise (e : exn).
Arguments Ok {A} a.
Arguments Raise {A} e.

(** ** The UTF-8 codec behind [str.encode()] and [bytes.decode()] *)

Definition is_surrogate (c : N) : bool := (0xD800 <=? c) && (c <=? 0xDFFF).

Definition encode_cp (c : N) : option pybytes :=
  if c <? 0x80 then Some [c]
  else if c <? 0x800 then Some [0xC0 + c / 64; 0x80 + c mod 64]
  else if c <? 0x10000 then
    if is_surrogate c then None
    else Some [0xE0 + c / 4096; 0x80 + (c / 64) mod 64; 0x80 + c mod 64]
  else if c <? 0x110000 then
    Some [0xF0 + c / 262144; 0x80 + (c / 4096) mod 64;
          0x80 + (c / 64) mod 64; 0x80 + c mod 64]
  else None.

Fixpoint utf8_encode (s : pystr) : option pybytes :=
  match s with
  | [] => Some []
  | c :: s' =>
      match encode_cp c, utf8_encode s' with
      | Some b, Some bs => Some (b ++ bs)
      | _, _ => None
      end
  end.

(** [s.encode()] *)
Definition encode (s : pystr) : outcome pybytes :=
  match utf8_encode s with
  | Some b => Ok b
  | None => Raise UnicodeEncodeError
  end.

Definition is_cont (b : N) : bool := (0x80 <=? b) && (b <? 0xC0).

(** Strict decoding: overlong forms, surrogates, stray continuation bytes and
    values past U+10FFFF are refused. *)
Fixpoint utf8_decode (b : pybytes) : option pystr :=
  match b with
  | [] => Some []
  | b0 :: r0 =>
      if b0 <? 0x80 then option_map (cons b0) (utf8_decode r0)
      else if (0xC0 <=? b0) && (b0 <? 0xE0) then
        match r0 with
        | b1 :: r1 =>
            let c := (b0 - 0xC0) * 64 + (b1 - 0x80) in
            if is_cont b1 && (0x80 <=? c)
            then option_map (cons c) (utf8_decode r1) else None
        | _ => None
        end
      else if (0xE0 <=? b0) && (b0 <? 0xF0) then
        match r0 with
        | b1 :: b2 :: r2 =>
            let c := (b0 - 0xE0) * 4096 + (b1 - 0x80) * 64 + (b2 - 0x80) in
            if is_cont b1 && is_cont b2 && (0x800 <=? c) && negb (is_surrogate c)
            then option_map (cons c) (utf8_decode r2) else None
        | _ => None
        end
      else if (0xF0 <=? b0) && (b0 <? 0xF8) then
        match r0 with
        | b1 :: b2 :: b3 :: r3 =>
            let c := (b0 - 0xF0) * 262144 + (b1 - 0x80) * 4096
                     + (b2 - 0x80) * 64 + (b3 - 0x80) in
            if is_cont b1 && is_cont b2 && is_cont b3
               && (0x10000 <=? c) && (c <? 0x110000)
            then option_map (cons c) (utf8_decode r3) else None
        | _ => None
        end
      else None
  end.

(** [b.decode()] *)
Definition decode (b : pybytes) : outcome pystr :=
  match utf8_decode b with
  | Some s => Ok s
  | None => Raise UnicodeDecodeError
  end.

(** Text made of ASCII characters only; on it both codecs are the identity. *)
Definition is_ascii (s : list N) : bool := forallb (fun c => c <? 0x80) s.

(** ** The libraries the program imports *)

(** What [mysql.connector.connect] does with the configured credentials:
    it hands back a connection object, or raises a [mysql.connector.Error]
    carrying an [errno] and a text, or raises something else. *)
Inductive connect_result (Conn : Type) : Type :=
| Connected (conn : Conn)
| ConnectorError (errno : Z) (text : pystr)
| ConnectFailure (e : exn).
Arguments Connected {Conn} conn.
Arguments ConnectorError {Conn} errno text.
Arguments ConnectFailure {Conn} e.

(** Connection settings read at import time ([DB_HOST], ..., [DB_NAME]). *)
Record Config : Type := {
  DB_HOST : pystr;
  DB_USER : pystr;
  DB_PASSWORD : pystr;
  DB_NAME : pystr
}.

(** The imported operations.  [Rand] is what one salt is drawn from
    ([os.urandom] inside the library); [use_passlib] is the flag the import
    block at the top of the module sets. *)
Record Backend : Type := {
  Rand : Type;
  Conn : Type;
  use_passlib : bool;
  bcrypt_gensalt : Rand -> pybytes;
  bcrypt_hashpw : pybytes -> pybytes -> outcome pybytes;
  bcrypt_checkpw : pybytes -> pybytes -> outcome bool;
  passlib_hash : pystr -> Rand -> outcome pystr;
  passlib_verify : pystr -> pystr -> outcome bool;
  mysql_connect : Config -> connect_result Conn
}.

(** [errorcode.ER_BAD_DB_ERROR] and [errorcode.ER_ACCESS_DENIED_ERROR]. *)
Definition ER_BAD_DB_ERROR : Z := 1049.
Definition ER_ACCESS_DENIED_ERROR : Z := 1045.

(** ** The [users] table *)

(** A row is [(username, password_hash)]; the table keeps its rows in
    insertion order, so that uniqueness of the key is a property to prove
    and not one of the representation.  The server is taken to compare
    usernames character by character and to run in strict mode. *)
Definition Row : Type := pystr * pystr.
Definition Table : Type := list Row.

(** Both columns are [VARCHAR(255)]. *)
Definition VARCHAR_MAX : nat := 255.

Definition has_key (u : pystr) (t : Table) : bool :=
  existsb (fun r => str_eqb (fst r) u) t.

(** The [password_hash] column of the rows whose [username] is [u]. *)
Definition select_hash (u : pystr) (t : Table) : list pystr :=
  map snd (filter (fun r => str_eqb (fst r) u) t).

Definition usernames (t : Table) : list pystr := map fst t.

(** What went over the connection, in order. *)
Inductive Sql : Type :=
| CreateTableIfNotExists
| Insert (username password_hash : pystr)
| Select (username : pystr)
| Commit
| CloseCursor
| CloseConnection.

(** What appeared on the terminal. *)
Inductive Out : Type :=
| Print (line : pystr)
| Prompt (text : pystr).

(** ** Messages of the program *)

Definition CROSS : N := 0x274C.
Definition CHECK_MARK : N := 0x2705.

Definition msg_username_empty : pystr := CROSS :: lit " Username cannot be empty.".
Definition msg_password_empty : pystr := CROSS :: lit " Password cannot be empty.".
Definition msg_registered : pystr := CHECK_MARK :: lit " Registration successful.".
Definition msg_username_exists : pystr := CROSS :: lit " Username already exists.".
Definition msg_user_not_found : pystr := CROSS :: lit " User not found.".
Definition msg_invalid_credentials : pystr := CROSS :: lit " Invalid credentials.".
Definition msg_invalid_option : pystr := CROSS :: lit " Invalid option.".
Definition msg_welcome (username : pystr) : pystr :=
  CHECK_MARK :: lit " Login successful! Welcome, " ++ username ++ lit ".".
Definition msg_banner : pystr := lit "=== Simple Login System ===".
Definition msg_menu : pystr :=
  [10] ++ lit "1. Register" ++ [10] ++ lit "2. Login" ++ [10] ++ lit "3. Exit".
Definition msg_goodbye : pystr := lit "Goodbye.".

Definition msg_bad_db (name : pystr) : pystr :=
  lit "Database '" ++ name
  ++ lit "' does not exist. Please create it and rerun. (e.g. CREATE DATABASE "
  ++ name ++ lit ";)".
Definition msg_access_denied : pystr :=
  lit "Access denied: check your username/password.".
Definition msg_connection_error (err : pystr) : pystr :=
  lit "Database connection error: " ++ err.

(** ** The world the program runs in, and the operations on it *)

Section Program.

Variable B : Backend.
Variable cfg : Config.

(** The lines the user will type, the terminal transcript, the table as the
    open connection sees it and as it is committed ([None]: the table does
    not exist), the rows of the cursor's current result set, the traffic on
    the connection, and the source of randomness with the number of draws
    made so far. *)
Record World : Type := {
  stdin : list pystr;
  console : list Out;
  session : option Table;
  committed : option Table;
  result_set : list pystr;
  db_log : list Sql;
  urandom : nat -> Rand B;
  drawn : nat
}.

Definition set_stdin (l : list pystr) (w : World) : World :=
  {| stdin := l; console := console w; session := session w;
     committed := committed w; result_set := result_set w;
     db_log := db_log w; urandom := urandom w; drawn := drawn w |}.

Definition emit (o : Out) (w : World) : World :=
  {| stdin := stdin w; console := console w ++ [o]; session := session w;
     committed := committed w; result_set := result_set w;
     db_log := db_log w; urandom := urandom w; drawn := drawn w |}.

Definition set_session (t : option Table) (w : World) : World :=
  {| stdin := stdin w; console := console w; session := t;
     committed := committed w; result_set := result_set w;
     db_log := db_log w; urandom := urandom w; drawn := drawn w |}.

Definition set_committed (t : option Table) (w : World) : World :=
  {| stdin := stdin w; console := console w; session := session w;
     committed := t; result_set := result_set w;
     db_log := db_log w; urandom := urandom w; drawn := drawn w |}.

Definition set_result_set (r : list pystr) (w : World) : World :=
  {| stdin := stdin w; console := console w; session := session w;
     committed := committed w; result_set := r;
     db_log := db_log w; urandom := urandom w; drawn := drawn w |}.

Definition sent (q : Sql) (w : World) : World :=
  {| stdin := stdin w; console := console w; session := session w;
     committed := committed w; result_set := result_set w;
     db_log := db_log w ++ [q]; urandom := urandom w; drawn := drawn w |}.

Definition next_draw (w : World) : World :=
  {| stdin := stdin w; console := console w; session := session w;
     committed := committed w; result_set := result_set w;
     db_log := db_log w; urandom := urandom w; drawn := S (drawn w) |}.

(** A statement of the program: it changes the world and returns or raises. *)
Definition M (A : Type) : Type := World -> outcome A * World.

Definition ret {A} (a : A) : M A := fun w => (Ok a, w).

Definition bind {A C} (m : M A) (k : A -> M C) : M C :=
  fun w =>
    match m w with
    | (Ok a, w') => k a w'
    | (Raise e, w') => (Raise e, w')
    end.

Definition raise {A} (e : exn) : M A := fun w => (Raise e, w).

(** An expression without effect on the world. *)
Definition lift {A} (o : outcome A) : M A := fun w => (o, w).

(** [try: body except <the exceptions h accepts>: h e] *)
Definition try_except {A} (body : M A) (h : exn -> option (M A)) : M A :=
  fun w =>
    match body w with
    | (Raise e, w') =>
        match h e with
        | Some handler => handler w'
        | None => (Raise e, w')
        end
    | r => r
    end.

Notation "x <- m ;; k" := (bind m (fun x => k))
  (at level 61, m at next level, right associativity).
Notation "m ;;; k" := (bind m (fun _ => k))
  (at level 61, right associativity).

(** *** Console *)

(** [print(line)]; the terminal is taken to accept every character of the
    program's messages. *)
Definition print (line : pystr) : M unit := fun w => (Ok tt, emit (Print line) w).

(** [input(prompt)]: the prompt is shown and the next line typed is
    returned; at end of input Python raises [EOFError]. *)
Definition input (prompt : pystr) : M pystr :=
  fun w =>
    let w := emit (Prompt prompt) w in
    match stdin w with
    | line :: rest => (Ok line, set_stdin rest w)
    | [] => (Raise EOFError, w)
    end.

(** [getpass.getpass(prompt=...)]: as [input], without echo; the typed
    lines come from the same terminal. *)
Definition getpass (prompt : pystr) : M pystr := input prompt.

(** [exit(code)] *)
Definition exit {A} (code : Z) : M A := raise (SystemExit code).

(** *** Database *)

(** [CREATE TABLE IF NOT EXISTS users (...)]: a statement that defines
    data, so the server commits around it. *)
Definition execute_create_table : M unit :=
  fun w =>
    let w := sent CreateTableIfNotExists w in
    let t := match session w with Some t => t | None => [] end in
    (Ok tt, set_committed (Some t) (set_session (Some t) w)).

(** [INSERT INTO users (username, password_hash) VALUES (%s, %s)] under the
    server's strict mode: a value wider than its column is refused
    ([DataError]); a second row for a primary key is refused
    ([IntegrityError]); a refused statement leaves the table as it was. *)
Definition execute_insert (username password_hash : pystr) : M unit :=
  fun w =>
    let w := sent (Insert username password_hash) w in
    match session w with
    | None => (Raise ProgrammingError, w)
    | Some t =>
        if ((VARCHAR_MAX <? List.length username)
            || (VARCHAR_MAX <? List.length password_hash))%nat
        then (Raise DataError, w)
        else if has_key username t then (Raise IntegrityError, w)
        else (Ok tt, set_session (Some (t ++ [(username, password_hash)])) w)
    end.

(** [SELECT password_hash FROM users WHERE username = %s] *)
Definition execute_select (username : pystr) : M unit :=
  fun w =>
    let w := sent (Select username) w in
    match session w with
    | None => (Raise ProgrammingError, w)
    | Some t => (Ok tt, set_result_set (select_hash username t) w)
    end.

(** [cursor.fetchone()]: the next row of the result set, or [None]. *)
Definition fetchone : M (option pystr) :=
  fun w =>
    match result_set w with
    | row :: rest => (Ok (Some row), set_result_set rest w)
    | [] => (Ok None, w)
    end.

(** [conn.commit()] *)
Definition commit : M unit :=
  fun w => let w := sent Commit w in (Ok tt, set_committed (session w) w).

Definition close (what : Sql) : M unit := fun w => (Ok tt, sent what w).

(** *** Randomness *)

(** One draw from the operating system's random source. *)
Definition draw : M (Rand B) :=
  fun w => (Ok (urandom w (drawn w)), next_draw w).

(** ** The functions of [main.py] *)

Definition obind {A C} (o : outcome A) (k : A -> outcome C) : outcome C :=
  match o with
  | Ok a => k a
  | Raise e => Raise e
  end.

Definition connect : M (Conn B) :=
  match mysql_connect B cfg with
  | Connected conn => ret conn
  | ConnectorError errno text =>
      (if (errno =? ER_BAD_DB_ERROR)%Z then print (msg_bad_db (DB_NAME cfg))
       else if (errno =? ER_ACCESS_DENIED_ERROR)%Z then print msg_access_denied
       else print (msg_connection_error text)) ;;;
      exit 1%Z
  | ConnectFailure e => raise e
  end.

Definition setup_table : M unit := execute_create_table.

Definition hash_password (raw : pystr) : M pybytes :=
  if use_passlib B then
    r <- draw ;;
    h <- lift (passlib_hash B raw r) ;;
    lift (encode h)
  else
    b <- lift (encode raw) ;;
    r <- draw ;;
    lift (bcrypt_hashpw B b (bcrypt_gensalt B r)).

Definition verify_password (raw : pystr) (stored_hash : pybytes) : outcome bool :=
  if use_passlib B then
    match obind (decode stored_hash) (passlib_verify B raw) with
    | Ok b => Ok b
    | Raise e => if is_Exception e then Ok false else Raise e
    end
  else
    obind (encode raw) (fun b => bcrypt_checkpw B b stored_hash).

Definition register : M unit :=
  line <- input (lit "Enter new username: ") ;;
  let username := strip line in
  if is_empty username then print msg_username_empty
  else
    line <- getpass (lit "Enter new password: ") ;;
    let password := strip line in
    if is_empty password then print msg_password_empty
    else
      hashed <- hash_password password ;;
      try_except
        (stored <- lift (decode hashed) ;;
         execute_insert username stored ;;;
         commit ;;;
         print msg_registered)
        (fun e => match e with
                  | IntegrityError => Some (print msg_username_exists)
                  | _ => None
                  end).

Definition login : M unit :=
  line <- input (lit "Username: ") ;;
  let username := strip line in
  if is_empty username then print msg_username_empty
  else
    line <- getpass (lit "Password: ") ;;
    let password := strip line in
    execute_select username ;;;
    result <- fetchone ;;
    match result with
    | None => print msg_user_not_found
    | Some row =>
        stored_hash <- lift (encode row) ;;
        ok <- lift (verify_password password stored_hash) ;;
        if ok then print (msg_welcome username)
        else print msg_invalid_credentials
    end.

(** The [while True] loop of [main].  Every turn reads a line, so the loop
    ends (by [break] or by [EOFError]) within one turn more than there are
    lines to read; [None] is a loop stopped short of that. *)
Fixpoint main_loop (turns : nat) (w : World) : option (outcome unit * World) :=
  match turns with
  | O => None
  | S turns' =>
      match (print msg_menu ;;; input (lit "Choice: ")) w with
      | (Raise e, w1) => Some (Raise e, w1)
      | (Ok line, w1) =>
          let choice := strip line in
          if str_eqb choice (lit "3") then Some (Ok tt, w1)
          else
            let body :=
              if str_eqb choice (lit "1") then register
              else if str_eqb choice (lit "2") then login
              else print msg_invalid_option in
            match body w1 with
            | (Raise e, w2) => Some (Raise e, w2)
            | (Ok _, w2) => main_loop turns' w2
            end
      end
  end.

Definition main (w : World) : option (outcome unit * World) :=
  match (print msg_banner ;;; connect ;;; setup_table) w with
  | (Raise e, w1) => Some (Raise e, w1)
  | (Ok _, w1) =>
      match main_loop (S (List.length (stdin w1))) w1 with
      | Some (Ok _, w2) =>
          Some ((close CloseCursor ;;; close CloseConnection ;;;
                 print msg_goodbye) w2)
      | r => r
      end
  end.

End Program.

Arguments stdin {B} w.
Arguments console {B} w.
Arguments session {B} w.
Arguments committed {B} w.
Arguments result_set {B} w.
Arguments db_log {B} w.
Arguments urandom {B} w n.
Arguments drawn {B} w.
Arguments M B A : clear implicits.
Arguments ret {B A} a w.
Arguments bind {B A C} m k w.
Arguments lift {B A} o w.
Arguments print {B} line w.
Arguments fetchone {B} w.
Arguments commit {B} w.
Arguments setup_table {B} w.
Arguments execute_insert {B} username password_hash w.
Arguments execute_select {B} username w.
Arguments hash_password : clear implicits.
Arguments connect : clear implicits.
Arguments draw {B} w.
Arguments register {B} w.
Arguments login {B} w.
Arguments main_loop {B} turns w.
Arguments set_stdin {B} l w.
Arguments emit {B} o w.
Arguments sent {B} q w.
Arguments next_draw {B} w.
Arguments set_session {B} t w.
Arguments set_committed {B} t w.
Arguments set_result_set {B} r w.

Notation "x <- m ;; k" := (bind m (fun x => k))
  (at level 61, m at next level, right associativity).
Notation "m ;;; k" := (bind m (fun _ => k))
  (at level 61, right associativity).

(** ** What the module does when it is loaded *)

(** The process environment behind [os.getenv]. *)
Definition Environ : Type := pystr -> option pystr.

(** [get_env(name, default)] is [os.getenv(name) or default]: a variable
    that is not set, or set to the empty string, gives [default], which may
    itself be [None]. *)
Definition get_env (env : Environ) (name : pystr) (default : option pystr)
  : option pystr :=
  match env name with
  | Some v => if is_empty v then default else Some v
  | None => default
  end.

(** The value of a setting that was given a default. *)
Definition setting (o : option pystr) : pystr :=
  match o with Some v => v | None => [] end.

(** The assignments to [DB_HOST], [DB_USER], [DB_PASSWORD] and [DB_NAME],
    with the prompt for a password the environment does not give. *)
Definition load_config {B} (env : Environ) : M B Config :=
  let host := get_env env (lit "DB_HOST") (Some (lit "localhost")) in
  let user := get_env env (lit "DB_USER") (Some (lit "root")) in
  let password := get_env env (lit "DB_PASSWORD") None in
  let name := get_env env (lit "DB_NAME") (Some (lit "login_db")) in
  password <- match password with
              | None => @getpass B (lit "MySQL password: ")
              | Some v => ret v
              end ;;
  ret {| DB_HOST := setting host; DB_USER := setting user;
         DB_PASSWORD := password; DB_NAME := setting name |}.

(** ** Vocabulary of the properties *)

(** An operation run on the lines the user types for it: the terminal holds
    just these lines while the operation runs, and what the operation did
    not read is dropped afterwards. *)
Definition typed {B A} (lines : list pystr) (m : M B A) : M B A :=
  fun w =>
    let (o, w') := m (set_stdin lines w) in (o, set_stdin (stdin w) w').

(** The world after the prompts of [register] and of [login]. *)
Definition asked_new_username {B} (w : World B) : World B :=
  emit (Prompt (lit "Enter new username: ")) w.

Definition asked_new_password {B} (w : World B) : World B :=
  emit (Prompt (lit "Enter new password: ")) (asked_new_username w).

Definition asked_username {B} (w : World B) : World B :=
  emit (Prompt (lit "Username: ")) w.

Definition asked_password {B} (w : World B) : World B :=
  emit (Prompt (lit "Password: ")) (asked_username w).

(** The digest [hash_password raw] returns when the salt is drawn from [r]. *)
Definition digest_of (B : Backend) (raw : pystr) (r : Rand B) : outcome pybytes :=
  if use_passlib B then obind (passlib_hash B raw r) encode
  else obind (encode raw) (fun b => bcrypt_hashpw B b (bcrypt_gensalt B r)).

(** A digest as it can be kept in the [password_hash] column: ASCII text,
    not empty, no wider than the column. *)
Definition storable (d : list N) : bool :=
  is_ascii d && negb (is_empty d) && (List.length d <=? VARCHAR_MAX)%nat.

(** What the program relies on from the library it found at import: a
    digest the library made verifies against the password it was made from,
    digests made from different draws differ (the salt is part of the
    digest), and a digest is short ASCII text. *)
Record bcrypt_laws (B : Backend) : Prop := {
  checkpw_hashpw : forall pw r d,
    bcrypt_hashpw B pw (bcrypt_gensalt B r) = Ok d ->
    bcrypt_checkpw B pw d = Ok true;
  hashpw_salted : forall pw r1 r2 d1 d2,
    r1 <> r2 ->
    bcrypt_hashpw B pw (bcrypt_gensalt B r1) = Ok d1 ->
    bcrypt_hashpw B pw (bcrypt_gensalt B r2) = Ok d2 ->
    d1 <> d2;
  hashpw_storable : forall pw r d,
    bcrypt_hashpw B pw (bcrypt_gensalt B r) = Ok d -> storable d = true
}.

Record passlib_laws (B : Backend) : Prop := {
  verify_hash : forall raw r h,
    passlib_hash B raw r = Ok h -> passlib_verify B raw h = Ok true;
  hash_salted : forall raw r1 r2 h1 h2,
    r1 <> r2 ->
    passlib_hash B raw r1 = Ok h1 -> passlib_hash B raw r2 = Ok h2 ->
    h1 <> h2;
  hash_storable : forall raw r h,
    passlib_hash B raw r = Ok h -> storable h = true
}.

Definition backend_laws (B : Backend) : Prop :=
  if use_passlib B then passlib_laws B else bcrypt_laws B.

(** The data-model invariant: one row per username, and every stored hash
    is a non-empty string that [hash_password] produced for some password. *)
Definition hash_ok (B : Backend) (h : pystr) : Prop :=
  h <> [] /\ exists raw r d, digest_of B raw r = Ok d /\ decode d = Ok h.

Definition table_ok (B : Backend) (t : Table) : Prop :=
  NoDup (usernames t) /\ forall u h, In (u, h) t -> hash_ok B h.

Definition opt_table_ok (B : Backend) (o : option Table) : Prop :=
  match o with Some t => table_ok B t | None => True end.

Definition world_ok {B} (w : World B) : Prop :=
  opt_table_ok B (session w) /\ opt_table_ok B (committed w).

(** A statement that keeps the invariant, and whose result, when it returns
    one, satisfies [Q]. *)
Definition ensures {B A} (m : M B A) (Q : A -> Prop) : Prop :=
  forall w, world_ok w ->
            world_ok (snd (m w)) /\ forall a, fst (m w) = Ok a -> Q a.

(** A statement that may read lines from the terminal but puts none back. *)
Definition reads {B A} (m : M B A) : Prop :=
  forall w, (List.length (stdin (snd (m w))) <= List.length (stdin w))%nat.

(** The lines a transcript shows as printed, prompts left out. *)
Definition printed (c : list Out) : list pystr :=
  flat_map (fun o => match o with Print l => [l] | Prompt _ => [] end) c.

(** The three classes [connect] sorts a connector error into. *)
Inductive error_class : Type :=
| DatabaseMissing
| AccessDenied
| OtherConnectionError.

Definition classify (errno : Z) : error_class :=
  if (errno =? ER_BAD_DB_ERROR)%Z then DatabaseMissing
  else if (errno =? ER_ACCESS_DENIED_ERROR)%Z then AccessDenied
  else OtherConnectionError.

Definition diagnostic (cfg : Config) (c : error_class) (text : pystr) : pystr :=
  match c with
  | DatabaseMissing => msg_bad_db (DB_NAME cfg)
  | AccessDenied => msg_access_denied
  | OtherConnectionError => msg_connection_error text
  end.

(** How a setting comes out of the environment: the variable's value when
    it is set and not empty, the default otherwise. *)
Definition chosen (env : Environ) (name default value : pystr) : Prop :=
  match env name with
  | Some (c :: v) => value = c :: v
  | _ => value = default
  end.

(** A statement every run of which relates the world before to the world
    after by [R], whether it returns or raises. *)
Definition steps {B A} (R : World B -> World B -> Prop) (m : M B A) : Prop :=
  forall w, R w (snd (m w)).

(** The table is what it was, seen from the connection and committed. *)
Definition same_tables {B} (w w' : World B) : Prop :=
  session w' = session w /\ committed w' = committed w.

(** What was sent since [w] are statements that satisfy [ok]. *)
Definition sent_only {B} (ok : Sql -> Prop) (w w' : World B) : Prop :=
  exists l, db_log w' = db_log w ++ l /\ Forall ok l.

(** What appeared on the terminal since [w] satisfies [ok]. *)
Definition shown_only {B} (ok : Out -> Prop) (w w' : World B) : Prop :=
  exists l, console w' = console w ++ l /\ Forall ok l.

(** The lines read since [w], in order: what is left to read in [w'] is
    what was left in [w] without them. *)
Definition read_lines {B} (w w' : World B) (l : list pystr) : Prop :=
  stdin w = l ++ stdin w'.

(** The prompts and messages of [register]. *)
Definition register_says (o : Out) : Prop :=
  In o [Prompt (lit "Enter new username: ");
        Prompt (lit "Enter new password: ");
        Print msg_username_empty; Print msg_password_empty;
        Print msg_registered; Print msg_username_exists].

(** The prompts and messages of [login] for a user who typed [line] as the
    username. *)
Definition login_says (line : pystr) (o : Out) : Prop :=
  In o [Prompt (lit "Username: "); Prompt (lit "Password: ");
        Print msg_username_empty; Print msg_user_not_found;
        Print (msg_welcome (strip line)); Print msg_invalid_credentials].

(** Statements of the menu loop: everything but closing. *)
Definition not_closing (q : Sql) : Prop :=
  q <> CloseCursor /\ q <> CloseConnection.

(** An environment that sets the user and an empty host. *)
Definition ref_environ : Environ :=
  fun name =>
    if str_eqb name (lit "DB_USER") then Some (lit "admin")
    else if str_eqb name (lit "DB_HOST") then Some (lit "")
    else None.

(** What rejection relies on: the library refuses a password it can hash
    for the digest it made from another password.  Digests are short, so
    for a real hash this is the usual idealisation that no two passwords
    collide. *)
Definition bcrypt_rejects (B : Backend) : Prop :=
  forall pw pw' r r' d d',
    bcrypt_hashpw B pw (bcrypt_gensalt B r) = Ok d ->
    bcrypt_hashpw B pw' (bcrypt_gensalt B r') = Ok d' ->
    pw <> pw' -> bcrypt_checkpw B pw' d = Ok false.

Definition passlib_rejects (B : Backend) : Prop :=
  forall raw raw' r r' h h',
    passlib_hash B raw r = Ok h -> passlib_hash B raw' r' = Ok h' ->
    raw <> raw' -> passlib_verify B raw' h = Ok false.

Definition backend_rejects (B : Backend) : Prop :=
  if use_passlib B then passlib_rejects B else bcrypt_rejects B.

(** A line with nothing to strip: not empty, no whitespace at either end. *)
Definition bare (s : pystr) : bool :=
  match s with
  | [] => false
  | c :: _ => negb (isspace c) && negb (isspace (last s 0))
  end.

(** ** A reference backend

    An executable backend with the shape of the bcrypt bindings: a salt is
    [$2b$12$] followed by 22 characters of the bcrypt alphabet, a digest is
    the 29 characters of its salt followed by 31 characters computed from
    salt and password, [checkpw] hashes again under the digest's own salt
    and compares, and a salt that does not parse raises [ValueError].  The
    31 characters are a plain checksum, not Blowfish: the backend is there
    to run the program on concrete inputs and to show the laws above can
    be met, and no general theorem below depends on it. *)

Definition b64char (d : N) : N :=
  if d <? 2 then 46 + d
  else if d <? 28 then 63 + d
  else if d <? 54 then 69 + d
  else d - 6.

Definition is_b64 (c : N) : bool :=
  ((46 <=? c) && (c <=? 57)) || ((65 <=? c) && (c <=? 90))
  || ((97 <=? c) && (c <=? 122)).

(** The [k] low base-64 digits of [n], lowest first. *)
Fixpoint digits (k : nat) (n : N) : list N :=
  match k with
  | O => []
  | S k' => n mod 64 :: digits k' (n / 64)
  end.

Definition ref_Rand : Type := { n : N | (n <? 64 ^ 22) = true }.

Definition mk_rand (n : N) : ref_Rand.
Proof.
  exists (n mod 64 ^ 22).
  apply N.ltb_lt, N.mod_lt. discriminate.
Defined.

Definition SALT_PREFIX : pybytes := lit "$2b$12$".

Definition ref_gensalt (r : ref_Rand) : pybytes :=
  SALT_PREFIX ++ map b64char (digits 22 (proj1_sig r)).

Definition ref_salt_ok (p : pybytes) : bool :=
  (List.length p =? 29)%nat && str_eqb (firstn 7 p) SALT_PREFIX
  && forallb is_b64 (skipn 7 p).

Definition ref_tag (pw p : pybytes) : pybytes :=
  map b64char
    (digits 31 (fold_left (fun a x => (a * 257 + x + 1) mod 64 ^ 31) (p ++ pw) 7)).

Definition ref_hashpw (pw salt : pybytes) : outcome pybytes :=
  let p := firstn 29 salt in
  if ref_salt_ok p then Ok (p ++ ref_tag pw p)
  else Raise (ValueError "Invalid salt").

Definition ref_checkpw (pw hashed : pybytes) : outcome bool :=
  obind (ref_hashpw pw hashed) (fun d => Ok (str_eqb d hashed)).

Definition ref_passlib_hash (raw : pystr) (r : ref_Rand) : outcome pystr :=
  obind (encode raw) (fun b => ref_hashpw b (ref_gensalt r)).

Definition ref_passlib_verify (raw h : pystr) : outcome bool :=
  obind (encode raw) (fun b => ref_checkpw b h).

(** A server with one account and one database. *)
Definition ref_mysql_connect (cfg : Config) : connect_result unit :=
  if negb (str_eqb (DB_PASSWORD cfg) (lit "secret"))
  then ConnectorError 1045 (lit "1045 (28000): Access denied for user")
  else if negb (str_eqb (DB_NAME cfg) (lit "login_db"))
  then ConnectorError 1049 (lit "1049 (42000): Unknown database")
  else Connected tt.

Definition ref_backend (passlib : bool) : Backend :=
  {| Rand := ref_Rand; Conn := unit; use_passlib := passlib;
     bcrypt_gensalt := ref_gensalt; bcrypt_hashpw := ref_hashpw;
     bcrypt_checkpw := ref_checkpw; passlib_hash := ref_passlib_hash;
     passlib_verify := ref_passlib_verify;
     mysql_connect := ref_mysql_connect |}.

Definition ref_config : Config :=
  {| DB_HOST := lit "localhost"; DB_USER := lit "root";
     DB_PASSWORD := lit "secret"; DB_NAME := lit "login_db" |}.

(** A fresh terminal in front of a database holding table [t]. *)
Definition ref_world (passlib : bool) (t : option Table) (lines : list pystr)
  : World (ref_backend passlib) :=
  @Build_World (ref_backend passlib) lines [] t t [] []
    (fun n => mk_rand (N.of_nat n)) 0.

(** ** A backend that tells passwords apart

    The reference backend with the password itself, in the bcrypt
    alphabet, appended to the digest, and with passwords of more than 72
    bytes refused, as the bcrypt bindings refuse them: no two passwords
    share a digest, so this one also meets [backend_rejects]. *)

Definition enc_byte (b : N) : list N := [b64char (b mod 64); b64char (b / 64)].

Definition enc_bytes (pw : pybytes) : list N := flat_map enc_byte pw.

Definition hashable (pw : pybytes) : bool :=
  (List.length pw <=? 72)%nat && forallb (fun b => b <? 256) pw.

Definition exact_hashpw (pw salt : pybytes) : outcome pybytes :=
  if hashable pw
  then obind (ref_hashpw pw salt) (fun d => Ok (d ++ enc_bytes pw))
  else Raise (ValueError "password cannot be longer than 72 bytes").

Definition exact_checkpw (pw hashed : pybytes) : outcome bool :=
  obind (exact_hashpw pw hashed) (fun d => Ok (str_eqb d hashed)).

Definition exact_passlib_hash (raw : pystr) (r : ref_Rand) : outcome pystr :=
  obind (encode raw) (fun b => exact_hashpw b (ref_gensalt r)).

Definition exact_passlib_verify (raw h : pystr) : outcome bool :=
  obind (encode raw) (fun b => exact_checkpw b h).

Definition exact_backend (passlib : bool) : Backend :=
  {| Rand := ref_Rand; Conn := unit; use_passlib := passlib;
     bcrypt_gensalt := ref_gensalt; bcrypt_hashpw := exact_hashpw;
     bcrypt_checkpw := exact_checkpw; passlib_hash := exact_passlib_hash;
     passlib_verify := exact_passlib_verify;
     mysql_connect := ref_mysql_connect |}.

Definition exact_world (passlib : bool) (t : option Table) (lines : list pystr)
  : World (exact_backend passlib) :=
  @Build_World (exact_backend passlib) lines [] t t [] []
    (fun n => mk_rand (N.of_nat n)) 0.

(** ** A backend that accepts every password

    The reference backend with a [checkpw] that answers [True] whatever it
    is given: it meets [backend_laws] and not [backend_rejects]. *)

Definition lax_checkpw (pw hashed : pybytes) : outcome bool := Ok true.

Definition lax_backend : Backend :=
  {| Rand := ref_Rand; Conn := unit; use_passlib := false;
     bcrypt_gensalt := ref_gensalt; bcrypt_hashpw := ref_hashpw;
     bcrypt_checkpw := lax_checkpw; passlib_hash := ref_passlib_hash;
     passlib_verify := ref_passlib_verify;
     mysql_connect := ref_mysql_connect |}.

Definition lax_world (t : option Table) (lines : list pystr) : World lax_backend :=
  @Build_World lax_backend lines [] t t [] [] (fun n => mk_rand (N.of_nat n)) 0.

(** * Properties *)

(** Reduces the projections and updates of a [World]. *)
Ltac world_step :=
  cbn [stdin console session committed result_set db_log urandom drawn
       set_stdin emit set_session set_committed set_result_set sent
       next_draw asked_new_username asked_new_password asked_username
       asked_password fst snd].

(** ** Strings *)

Lemma Some_inj {A} (a a' : A) : Some a = Some a' -> a = a'.
Proof. intros H. now inversion H. Qed.

Lemma str_eqb_eq (a b : pystr) : str_eqb a b = true <-> a = b.
Proof.
  revert b. induction a as [|x a IH]; intros [|y b]; simpl; split;
    try discriminate; try reflexivity.
  - intros H. apply andb_true_iff in H as [Hx Hab].
    apply N.eqb_eq in Hx. apply IH in Hab. congruence.
  - intros H. inversion H; subst. rewrite N.eqb_refl. simpl. now apply IH.
Qed.

Lemma str_eqb_refl (a : pystr) : str_eqb a a = true.
Proof. now apply str_eqb_eq. Qed.

Lemma is_empty_false (s : pystr) : s <> [] -> is_empty s = false.
Proof. destruct s; [congruence | reflexivity]. Qed.

(** *** [strip] *)

Lemma lstrip_spaces (a s : pystr) :
  forallb isspace a = true -> lstrip (a ++ s) = lstrip s.
Proof.
  induction a as [|c a IH]; simpl; [reflexivity|].
  intros H. apply andb_true_iff in H as [Hc Ha]. now rewrite Hc, IH.
Qed.

Lemma lstrip_app_nonempty (s b : pystr) :
  lstrip s <> [] -> lstrip (s ++ b) = lstrip s ++ b.
Proof.
  induction s as [|c s IH]; simpl; [congruence|].
  destruct (isspace c); [exact IH | reflexivity].
Qed.

Lemma lstrip_all_spaces (s : pystr) :
  lstrip s = [] -> forallb isspace s = true.
Proof.
  induction s as [|c s IH]; simpl; [reflexivity|].
  destruct (isspace c); [exact IH | discriminate].
Qed.

Lemma forallb_rev {A} (f : A -> bool) (l : list A) :
  forallb f (rev l) = forallb f l.
Proof.
  induction l as [|x l IH]; simpl; [reflexivity|].
  rewrite forallb_app, IH. simpl. rewrite andb_true_r. apply andb_comm.
Qed.

Lemma rstrip_spaces (s b : pystr) :
  forallb isspace b = true -> rstrip (s ++ b) = rstrip s.
Proof.
  intros H. unfold rstrip. rewrite rev_app_distr, lstrip_spaces; [reflexivity|].
  now rewrite forallb_rev.
Qed.

(** Whitespace around a line does not change what [strip] returns. *)
Lemma strip_surrounding (a s b : pystr) :
  forallb isspace a = true -> forallb isspace b = true ->
  strip (a ++ s ++ b) = strip s.
Proof.
  intros Ha Hb. unfold strip. rewrite lstrip_spaces by exact Ha.
  destruct (lstrip s) as [|c t] eqn:E.
  - rewrite lstrip_spaces.
    + rewrite <- (app_nil_r b), lstrip_spaces by exact Hb. reflexivity.
    + now apply lstrip_all_spaces.
  - rewrite lstrip_app_nonempty by (rewrite E; discriminate).
    rewrite E. now apply rstrip_spaces.
Qed.

(** ** The codec on ASCII text *)

Lemma utf8_encode_ascii (s : pystr) :
  is_ascii s = true -> utf8_encode s = Some s.
Proof.
  induction s as [|c s IH]; simpl; [reflexivity|].
  intros H. apply andb_true_iff in H as [Hc Hs].
  unfold encode_cp. rewrite Hc, (IH Hs). reflexivity.
Qed.

Lemma utf8_decode_ascii (b : pybytes) :
  is_ascii b = true -> utf8_decode b = Some b.
Proof.
  induction b as [|c b IH]; [reflexivity|].
  intros H. simpl in H. apply andb_true_iff in H as [Hc Hb].
  cbn [utf8_decode]. rewrite Hc, (IH Hb). reflexivity.
Qed.

Lemma encode_ascii (s : pystr) : is_ascii s = true -> encode s = Ok s.
Proof. intros H. unfold encode. now rewrite utf8_encode_ascii. Qed.

Lemma decode_ascii (b : pybytes) : is_ascii b = true -> decode b = Ok b.
Proof. intros H. unfold decode. now rewrite utf8_decode_ascii. Qed.

Lemma storable_ascii (d : list N) : storable d = true -> is_ascii d = true.
Proof.
  unfold storable. intros H.
  apply andb_true_iff in H as [H _]. now apply andb_true_iff in H as [H _].
Qed.

Lemma storable_nonempty (d : list N) : storable d = true -> d <> [].
Proof.
  unfold storable. intros H.
  apply andb_true_iff in H as [H _]. apply andb_true_iff in H as [_ H].
  destruct d; [discriminate | congruence].
Qed.

Lemma storable_fits (d : list N) :
  storable d = true -> (VARCHAR_MAX <? List.length d)%nat = false.
Proof.
  unfold storable. intros H. apply andb_true_iff in H as [_ H].
  apply Nat.leb_le in H. apply Nat.ltb_ge. exact H.
Qed.

(** ** The codec in general *)

Ltac split_tests :=
  repeat match goal with
         | |- context [?a <? ?b] => destruct (N.ltb_spec a b); try lia
         | |- context [?a <=? ?b] => destruct (N.leb_spec a b); try lia
         end.

Lemma div_mod_64 (c : N) : c = 64 * (c / 64) + c mod 64 /\ c mod 64 < 64.
Proof. split; [apply N.div_mod' | apply N.mod_lt; discriminate]. Qed.

(** Decoding undoes the encoding of one code point. *)
Lemma decode_encode_cp (c : N) (b rest : pybytes) :
  encode_cp c = Some b ->
  utf8_decode (b ++ rest) = option_map (cons c) (utf8_decode rest).
Proof.
  unfold encode_cp.
  destruct (N.ltb_spec c 0x80) as [H1|H1];
    [|destruct (N.ltb_spec c 0x800) as [H2|H2];
      [|destruct (N.ltb_spec c 0x10000) as [H3|H3];
        [destruct (is_surrogate c) eqn:Hs; [discriminate|]
        |destruct (N.ltb_spec c 0x110000) as [H4|H4]; [|discriminate]]]];
    intros E; apply Some_inj in E; subst b; cbn [app utf8_decode].
  - apply N.ltb_lt in H1. now rewrite H1.
  - destruct (div_mod_64 c) as [Ec Hr].
    set (q := c / 64) in *. set (r := c mod 64) in *.
    replace ((0xC0 + q - 0xC0) * 64 + (0x80 + r - 0x80)) with c by lia.
    unfold is_cont. split_tests. reflexivity.
  - destruct (div_mod_64 c) as [Ec Hr].
    destruct (div_mod_64 (c / 64)) as [Eq Hr1].
    replace (c / 4096) with (c / 64 / 64) by (now rewrite N.Div0.div_div).
    set (q := c / 64) in *. set (r := c mod 64) in *.
    set (q1 := q / 64) in *. set (r1 := q mod 64) in *.
    replace ((0xE0 + q1 - 0xE0) * 4096 + (0x80 + r1 - 0x80) * 64
             + (0x80 + r - 0x80)) with c by lia.
    rewrite Hs. unfold is_cont. split_tests. reflexivity.
  - destruct (div_mod_64 c) as [Ec Hr].
    destruct (div_mod_64 (c / 64)) as [Eq Hr1].
    destruct (div_mod_64 (c / 64 / 64)) as [Eq1 Hr2].
    replace (c / 262144) with (c / 64 / 64 / 64)
      by (now rewrite !N.Div0.div_div).
    replace (c / 4096) with (c / 64 / 64) by (now rewrite N.Div0.div_div).
    set (q := c / 64) in *. set (r := c mod 64) in *.
    set (q1 := q / 64) in *. set (r1 := q mod 64) in *.
    set (q2 := q1 / 64) in *. set (r2 := q1 mod 64) in *.
    replace ((0xF0 + q2 - 0xF0) * 262144 + (0x80 + r2 - 0x80) * 4096
             + (0x80 + r1 - 0x80) * 64 + (0x80 + r - 0x80)) with c by lia.
    unfold is_cont. split_tests. reflexivity.
Qed.

(** [s.encode().decode() == s] for every string that can be encoded. *)
Lemma utf8_decode_encode (s : pystr) (b : pybytes) :
  utf8_encode s = Some b -> utf8_decode b = Some s.
Proof.
  revert b. induction s as [|c s IH]; intros b; simpl.
  - intros E. apply Some_inj in E. now subst b.
  - destruct (encode_cp c) as [bc|] eqn:Ec; [|discriminate].
    destruct (utf8_encode s) as [bs|]; [|discriminate].
    intros E. apply Some_inj in E. subst b.
    now rewrite (decode_encode_cp _ bs Ec), (IH bs eq_refl).
Qed.

Example encode_cross : encode [CROSS] = Ok [0xE2; 0x9D; 0x8C].
Proof. reflexivity. Qed.

Example decode_cross : decode [0xE2; 0x9D; 0x8C] = Ok [CROSS].
Proof. reflexivity. Qed.

Example encode_surrogate : encode [0xD800] = Raise UnicodeEncodeError.
Proof. reflexivity. Qed.

Example decode_overlong : decode [0xC0; 0x80] = Raise UnicodeDecodeError.
Proof. reflexivity. Qed.

(** ** The hasher *)

Lemma obind_ok {A C} (o : outcome A) (k : A -> outcome C) (c : C) :
  obind o k = Ok c -> exists a, o = Ok a /\ k a = Ok c.
Proof. destruct o as [a|e]; simpl; [eauto | discriminate]. Qed.

Section Hasher.

Variable B : Backend.

(** [hash_password] draws once and returns the digest of that draw. *)
Lemma hash_password_ok (raw : pystr) (w : World B) (d : pybytes) :
  digest_of B raw (urandom w (drawn w)) = Ok d ->
  hash_password B raw w = (Ok d, next_draw w).
Proof.
  unfold digest_of, hash_password, bind, draw, lift.
  destruct (use_passlib B); intros H; apply obind_ok in H as (a & Ha & Hd).
  - now rewrite Ha, Hd.
  - now rewrite Ha, Hd.
Qed.

Lemma hash_password_inv (raw : pystr) (w w' : World B) (d : pybytes) :
  hash_password B raw w = (Ok d, w') ->
  w' = next_draw w /\ digest_of B raw (urandom w (drawn w)) = Ok d.
Proof.
  unfold digest_of, hash_password, bind, draw, lift.
  destruct (use_passlib B).
  - destruct (passlib_hash B raw _) as [h|e]; simpl; [|discriminate].
    destruct (encode h); intros H; inversion H; subst; auto.
  - destruct (encode raw) as [b|e]; simpl; [|discriminate].
    destruct (bcrypt_hashpw B b _); intros H; inversion H; subst; auto.
Qed.

(** Whatever it returns, [hash_password] touches neither terminal nor
    database. *)
Lemma hash_password_frame (raw : pystr) (w : World B) :
  let w' := snd (hash_password B raw w) in
  session w' = session w /\ committed w' = committed w
  /\ console w' = console w /\ db_log w' = db_log w /\ stdin w' = stdin w.
Proof.
  unfold hash_password, bind, draw, lift.
  destruct (use_passlib B).
  - destruct (passlib_hash B raw _) as [h|e]; simpl; auto 6.
  - destruct (encode raw) as [b|e]; simpl; auto 6.
Qed.

Hypothesis L : backend_laws B.

Lemma digest_storable (raw : pystr) (r : Rand B) (d : pybytes) :
  digest_of B raw r = Ok d -> storable d = true.
Proof.
  unfold backend_laws, digest_of in *.
  destruct (use_passlib B); intros H; apply obind_ok in H as (a & Ha & Hd).
  - pose proof (hash_storable L _ _ Ha) as Hs.
    rewrite (encode_ascii _ (storable_ascii _ Hs)) in Hd.
    inversion Hd; subst. exact Hs.
  - exact (hashpw_storable L _ _ Hd).
Qed.

(** A digest [hash_password] made is accepted by [verify_password] for the
    password it was made from. *)
Lemma hash_then_verify (raw : pystr) (r : Rand B) (d : pybytes) :
  digest_of B raw r = Ok d -> verify_password B raw d = Ok true.
Proof.
  intros H. pose proof (digest_storable _ _ H) as Hs. revert H.
  unfold backend_laws, digest_of, verify_password in *.
  destruct (use_passlib B); intros H; apply obind_ok in H as (a & Ha & Hd).
  - pose proof (hash_storable L _ _ Ha) as Hsa.
    rewrite (encode_ascii _ (storable_ascii _ Hsa)) in Hd.
    inversion Hd; subst.
    rewrite (decode_ascii _ (storable_ascii _ Hs)). simpl.
    now rewrite (verify_hash L _ _ Ha).
  - rewrite Ha. simpl. exact (checkpw_hashpw L _ _ Hd).
Qed.

(** Two draws that differ give two digests that differ. *)
Lemma salt_in_digest (raw : pystr) (r1 r2 : Rand B) (d1 d2 : pybytes) :
  r1 <> r2 -> digest_of B raw r1 = Ok d1 -> digest_of B raw r2 = Ok d2 ->
  d1 <> d2.
Proof.
  unfold backend_laws, digest_of in *.
  destruct (use_passlib B); intros Hr H1 H2;
    apply obind_ok in H1 as (a1 & Ha1 & Hd1);
    apply obind_ok in H2 as (a2 & Ha2 & Hd2).
  - rewrite (encode_ascii _ (storable_ascii _ (hash_storable L _ _ Ha1))) in Hd1.
    rewrite (encode_ascii _ (storable_ascii _ (hash_storable L _ _ Ha2))) in Hd2.
    inversion Hd1; inversion Hd2; subst.
    exact (hash_salted L _ Hr Ha1 Ha2).
  - rewrite Ha1 in Ha2. inversion Ha2; subst.
    exact (hashpw_salted L _ Hr Hd1 Hd2).
Qed.

End Hasher.

(** ** The table *)

Lemma has_key_In (u : pystr) (t : Table) :
  has_key u t = true <-> In u (usernames t).
Proof.
  unfold has_key, usernames. rewrite existsb_exists, in_map_iff. split.
  - intros (r & Hr & E). apply str_eqb_eq in E. eauto.
  - intros (r & E & Hr). exists r. split; [exact Hr|]. now apply str_eqb_eq.
Qed.

Lemma select_hash_absent (u : pystr) (t : Table) :
  has_key u t = false -> select_hash u t = [].
Proof.
  unfold has_key, select_hash. induction t as [|r t IH]; simpl; [reflexivity|].
  intros H. apply orb_false_iff in H as [Hr Ht]. rewrite Hr. now apply IH.
Qed.

Lemma select_hash_app (u : pystr) (t t' : Table) :
  select_hash u (t ++ t') = select_hash u t ++ select_hash u t'.
Proof. unfold select_hash. now rewrite filter_app, map_app. Qed.

(** The row just inserted for a fresh key is the one a query for the key
    returns. *)
Lemma select_hash_inserted (u h : pystr) (t : Table) :
  has_key u t = false -> select_hash u (t ++ [(u, h)]) = [h].
Proof.
  intros H. rewrite select_hash_app, (select_hash_absent _ _ H).
  unfold select_hash. simpl. now rewrite str_eqb_refl.
Qed.

(** ** One call of [register] or [login], case by case *)

Section Flows.

Variable B : Backend.

Lemma register_empty_username (w : World B) (u p : pystr) :
  strip u = [] ->
  typed [u; p] register w
  = (Ok tt, emit (Print msg_username_empty) (asked_new_username w)).
Proof.
  intros Hu. unfold typed, register, bind, getpass, input, print, asked_new_password,
    asked_new_username.
  world_step. rewrite Hu. reflexivity.
Qed.

Lemma register_empty_password (w : World B) (u p : pystr) :
  strip u <> [] -> strip p = [] ->
  typed [u; p] register w
  = (Ok tt, emit (Print msg_password_empty) (asked_new_password w)).
Proof.
  intros Hu Hp. unfold typed, register, bind, getpass, input, print, asked_new_password,
    asked_new_username.
  world_step. rewrite (is_empty_false Hu). world_step. rewrite Hp. reflexivity.
Qed.

(** A new username: the row is inserted and committed. *)
Lemma register_fresh (w : World B) (u p : pystr) (t : Table) (d : pybytes) :
  strip u <> [] -> strip p <> [] ->
  digest_of B (strip p) (urandom w (drawn w)) = Ok d ->
  storable d = true ->
  session w = Some t ->
  (List.length (strip u) <= VARCHAR_MAX)%nat ->
  has_key (strip u) t = false ->
  let t' := t ++ [(strip u, d)] in
  typed [u; p] register w
  = (Ok tt,
     emit (Print msg_registered)
       (set_committed (Some t')
          (sent Commit
             (set_session (Some t')
                (sent (Insert (strip u) d)
                   (next_draw (asked_new_password w))))))).
Proof.
  intros Hu Hp Hd Hs Ht Hlen Hk t'.
  unfold typed, register, bind, getpass, input, asked_new_password,
    asked_new_username.
  world_step. rewrite (is_empty_false Hu). world_step.
  rewrite (is_empty_false Hp).
  rewrite hash_password_ok with (d := d) by exact Hd.
  unfold try_except, bind, lift, execute_insert, commit, print.
  rewrite (decode_ascii _ (storable_ascii _ Hs)).
  world_step. rewrite Ht.
  apply Nat.ltb_ge in Hlen. rewrite Hlen, (storable_fits _ Hs). cbn [orb].
  rewrite Hk. reflexivity.
Qed.

(** A username already in the table: the insert is refused and nothing is
    committed. *)
Lemma register_taken (w : World B) (u p : pystr) (t : Table) (d : pybytes) :
  strip u <> [] -> strip p <> [] ->
  digest_of B (strip p) (urandom w (drawn w)) = Ok d ->
  storable d = true ->
  session w = Some t ->
  (List.length (strip u) <= VARCHAR_MAX)%nat ->
  has_key (strip u) t = true ->
  typed [u; p] register w
  = (Ok tt,
     emit (Print msg_username_exists)
       (sent (Insert (strip u) d) (next_draw (asked_new_password w)))).
Proof.
  intros Hu Hp Hd Hs Ht Hlen Hk.
  unfold typed, register, bind, getpass, input, asked_new_password,
    asked_new_username.
  world_step. rewrite (is_empty_false Hu). world_step.
  rewrite (is_empty_false Hp).
  rewrite hash_password_ok with (d := d) by exact Hd.
  unfold try_except, bind, lift, execute_insert, commit, print.
  rewrite (decode_ascii _ (storable_ascii _ Hs)).
  world_step. rewrite Ht.
  apply Nat.ltb_ge in Hlen. rewrite Hlen, (storable_fits _ Hs). cbn [orb].
  rewrite Hk. reflexivity.
Qed.

Lemma login_empty_username (w : World B) (u p : pystr) :
  strip u = [] ->
  typed [u; p] login w
  = (Ok tt, emit (Print msg_username_empty) (asked_username w)).
Proof.
  intros Hu. unfold typed, login, bind, getpass, input, print.
  world_step. rewrite Hu. reflexivity.
Qed.

(** Once the username is not empty, [login] sends its query, whatever the
    password. *)
Lemma login_queries (w : World B) (u p : pystr) (t : Table) :
  strip u <> [] -> session w = Some t ->
  typed [u; p] login w
  = typed []
      (result <- fetchone ;;
       match result with
       | None => print msg_user_not_found
       | Some row =>
           stored_hash <- lift (encode row) ;;
           ok <- lift (verify_password B (strip p) stored_hash) ;;
           if ok then print (msg_welcome (strip u))
           else print msg_invalid_credentials
       end)
      (set_result_set (select_hash (strip u) t)
         (sent (Select (strip u)) (asked_password w))).
Proof.
  intros Hu Ht. unfold typed, login, bind at 1 2 3, getpass, input, execute_select.
  world_step. rewrite (is_empty_false Hu). world_step. rewrite Ht.
  reflexivity.
Qed.

Lemma login_not_found (w : World B) (u p : pystr) (t : Table) :
  strip u <> [] -> session w = Some t -> has_key (strip u) t = false ->
  typed [u; p] login w
  = (Ok tt,
     emit (Print msg_user_not_found)
       (set_result_set [] (sent (Select (strip u)) (asked_password w)))).
Proof.
  intros Hu Ht Hk. rewrite (@login_queries w u p t Hu Ht).
  rewrite (select_hash_absent _ _ Hk). reflexivity.
Qed.

Lemma login_found (w : World B) (u p : pystr) (t : Table)
    (h : pystr) (more : list pystr) (ok : bool) :
  strip u <> [] -> session w = Some t ->
  select_hash (strip u) t = h :: more ->
  is_ascii h = true ->
  verify_password B (strip p) h = Ok ok ->
  typed [u; p] login w
  = (Ok tt,
     emit (Print (if ok then msg_welcome (strip u) else msg_invalid_credentials))
       (set_result_set more (sent (Select (strip u)) (asked_password w)))).
Proof.
  intros Hu Ht Hsel Hh Hv. rewrite (@login_queries w u p t Hu Ht), Hsel.
  unfold typed, bind, fetchone, lift, print.
  world_step.
  rewrite (encode_ascii _ Hh), Hv. destruct ok; reflexivity.
Qed.

End Flows.

(** ** The reference backend meets the laws *)

Lemma Ok_inj {A} (a a' : A) : Ok a = Ok a' -> a = a'.
Proof. intros H. now inversion H. Qed.

Lemma b64char_is_b64 (d : N) : d < 64 -> is_b64 (b64char d) = true.
Proof.
  intros H. unfold is_b64, b64char.
  destruct (N.ltb_spec d 2); [|destruct (N.ltb_spec d 28);
    [|destruct (N.ltb_spec d 54)]];
  repeat match goal with
         | |- context [?a <=? ?b] => destruct (N.leb_spec a b); try lia
         end; reflexivity.
Qed.

Lemma is_b64_ascii (c : N) : is_b64 c = true -> (c <? 0x80) = true.
Proof.
  unfold is_b64. intros H. apply N.ltb_lt.
  repeat match type of H with
         | context [?a <=? ?b] => destruct (N.leb_spec a b); try lia
         end; simpl in H; discriminate.
Qed.

Lemma b64char_inj (d d' : N) :
  d < 64 -> d' < 64 -> b64char d = b64char d' -> d = d'.
Proof.
  unfold b64char. intros H H'.
  destruct (N.ltb_spec d 2); destruct (N.ltb_spec d 28);
    destruct (N.ltb_spec d 54); destruct (N.ltb_spec d' 2);
    destruct (N.ltb_spec d' 28); destruct (N.ltb_spec d' 54); lia.
Qed.

Lemma digits_length (k : nat) (n : N) : List.length (digits k n) = k.
Proof. revert n. induction k; intros n; simpl; [reflexivity | now rewrite IHk]. Qed.

Lemma digits_small (k : nat) (n : N) : Forall (fun d => d < 64) (digits k n).
Proof.
  revert n. induction k; intros n; simpl; constructor.
  - apply N.mod_lt. discriminate.
  - apply IHk.
Qed.

Lemma digits_inj (k : nat) (n n' : N) :
  n < 64 ^ N.of_nat k -> n' < 64 ^ N.of_nat k ->
  digits k n = digits k n' -> n = n'.
Proof.
  revert n n'. induction k as [|k IH]; intros n n' Hn Hn' E.
  - simpl in Hn, Hn'. lia.
  - rewrite Nat2N.inj_succ, N.pow_succ_r' in Hn, Hn'.
    simpl in E. inversion E as [[E0 E1]].
    apply IH in E1; try (apply N.Div0.div_lt_upper_bound; assumption).
    rewrite (N.div_mod' n 64), (N.div_mod' n' 64). congruence.
Qed.

Lemma map_b64char_inj (l l' : list N) :
  Forall (fun d => d < 64) l -> Forall (fun d => d < 64) l' ->
  map b64char l = map b64char l' -> l = l'.
Proof.
  intros H. revert l'. induction H as [|d l Hd Hl IH]; intros [|d' l'] H' E;
    simpl in E; try discriminate; [reflexivity|].
  inversion H'; subst. inversion E.
  f_equal; [now apply b64char_inj | now apply IH].
Qed.

Lemma map_b64char_ok (l : list N) :
  Forall (fun d => d < 64) l -> forallb is_b64 (map b64char l) = true.
Proof.
  induction 1 as [|d l Hd Hl IH]; simpl; [reflexivity|].
  now rewrite b64char_is_b64, IH.
Qed.

Lemma forallb_b64_ascii (l : list N) :
  forallb is_b64 l = true -> is_ascii l = true.
Proof.
  induction l as [|c l IH]; simpl; [reflexivity|]. intros H.
  apply andb_true_iff in H as [Hc Hl]. now rewrite (is_b64_ascii _ Hc), IH.
Qed.

Lemma ref_rand_eq (r r' : ref_Rand) : proj1_sig r = proj1_sig r' -> r = r'.
Proof.
  destruct r as [n Hn], r' as [n' Hn']. simpl. intros E. subst n'.
  f_equal. apply UIP_dec, bool_dec.
Qed.

Lemma ref_gensalt_length (r : ref_Rand) : List.length (ref_gensalt r) = 29%nat.
Proof.
  unfold ref_gensalt. now rewrite length_app, length_map, digits_length.
Qed.

Lemma ref_gensalt_ok (r : ref_Rand) : ref_salt_ok (ref_gensalt r) = true.
Proof.
  unfold ref_salt_ok. rewrite ref_gensalt_length. unfold ref_gensalt.
  change (firstn 7 (SALT_PREFIX ++ ?l)) with SALT_PREFIX.
  change (skipn 7 (SALT_PREFIX ++ ?l)) with l.
  now rewrite str_eqb_refl, map_b64char_ok by apply digits_small.
Qed.

Lemma ref_gensalt_inj (r r' : ref_Rand) :
  ref_gensalt r = ref_gensalt r' -> r = r'.
Proof.
  unfold ref_gensalt. intros E. apply app_inv_head in E.
  apply map_b64char_inj in E; try apply digits_small.
  apply ref_rand_eq. destruct r as [n Hn], r' as [n' Hn']. simpl in *.
  apply N.ltb_lt in Hn, Hn'. now apply (digits_inj 22).
Qed.

(** Hashing under a salt that parses keeps the salt in front. *)
Lemma ref_hashpw_salted (pw s : pybytes) :
  List.length s = 29%nat -> ref_salt_ok s = true ->
  forall more, ref_hashpw pw (s ++ more) = Ok (s ++ ref_tag pw s).
Proof.
  intros Hlen Hok more. unfold ref_hashpw.
  replace (firstn 29 (s ++ more)) with s.
  - now rewrite Hok.
  - rewrite <- Hlen, firstn_app, Nat.sub_diag, firstn_all. simpl.
    now rewrite app_nil_r.
Qed.

Lemma ref_hashpw_gensalt (pw : pybytes) (r : ref_Rand) :
  ref_hashpw pw (ref_gensalt r) = Ok (ref_gensalt r ++ ref_tag pw (ref_gensalt r)).
Proof.
  rewrite <- (app_nil_r (ref_gensalt r)) at 1.
  apply ref_hashpw_salted; [apply ref_gensalt_length | apply ref_gensalt_ok].
Qed.

Lemma ref_tag_length (pw p : pybytes) : List.length (ref_tag pw p) = 31%nat.
Proof. unfold ref_tag. now rewrite length_map, digits_length. Qed.

Lemma ref_digest_storable (pw : pybytes) (r : ref_Rand) :
  storable (ref_gensalt r ++ ref_tag pw (ref_gensalt r)) = true.
Proof.
  unfold storable.
  rewrite length_app, ref_gensalt_length, ref_tag_length.
  assert (Ha : is_ascii (ref_gensalt r ++ ref_tag pw (ref_gensalt r)) = true).
  { unfold is_ascii. rewrite forallb_app. apply andb_true_iff. split.
    - unfold ref_gensalt. rewrite forallb_app. apply andb_true_iff. split.
      + reflexivity.
      + apply forallb_b64_ascii, map_b64char_ok, digits_small.
    - apply forallb_b64_ascii, map_b64char_ok, digits_small. }
  rewrite Ha.
  destruct (ref_gensalt r) eqn:E; [|reflexivity].
  pose proof (ref_gensalt_length r) as Hl. rewrite E in Hl. discriminate.
Qed.

Lemma app_eq_prefix {A} (a b x y : list A) :
  List.length a = List.length b -> a ++ x = b ++ y -> a = b.
Proof.
  revert b. induction a as [|c a IH]; intros [|c' b] Hl E;
    simpl in *; try discriminate; [reflexivity|].
  inversion E; subst. f_equal. apply IH; [congruence | assumption].
Qed.

Lemma ref_bcrypt_laws (passlib : bool) : bcrypt_laws (ref_backend passlib).
Proof.
  constructor;
    cbn [ref_backend Rand bcrypt_hashpw bcrypt_gensalt bcrypt_checkpw].
  - intros pw r d H. rewrite ref_hashpw_gensalt in H. apply Ok_inj in H. subst d.
    unfold ref_checkpw.
    rewrite ref_hashpw_salted by (apply ref_gensalt_length || apply ref_gensalt_ok).
    cbn [obind]. now rewrite str_eqb_refl.
  - intros pw r1 r2 d1 d2 Hr H1 H2 E.
    rewrite ref_hashpw_gensalt in H1, H2. apply Ok_inj in H1, H2. subst d1 d2.
    apply Hr, ref_gensalt_inj.
    apply app_eq_prefix in E; [exact E|].
    now rewrite !ref_gensalt_length.
  - intros pw r d H. rewrite ref_hashpw_gensalt in H. apply Ok_inj in H. subst d.
    apply ref_digest_storable.
Qed.

Lemma ref_passlib_laws (passlib : bool) : passlib_laws (ref_backend passlib).
Proof.
  pose proof (ref_bcrypt_laws passlib) as Lb.
  constructor;
    cbn [ref_backend Rand passlib_hash passlib_verify];
    unfold ref_passlib_hash, ref_passlib_verify.
  - intros raw r h H. apply obind_ok in H as (b & Hb & Hh). rewrite Hb. cbn [obind].
    exact (checkpw_hashpw Lb _ _ Hh).
  - intros raw r1 r2 h1 h2 Hr H1 H2.
    apply obind_ok in H1 as (b1 & Hb1 & Hh1).
    apply obind_ok in H2 as (b2 & Hb2 & Hh2).
    rewrite Hb1 in Hb2. apply Ok_inj in Hb2. subst b2.
    exact (hashpw_salted Lb _ Hr Hh1 Hh2).
  - intros raw r h H. apply obind_ok in H as (b & Hb & Hh).
    exact (hashpw_storable Lb _ _ Hh).
Qed.

Lemma ref_backend_laws (passlib : bool) : backend_laws (ref_backend passlib).
Proof.
  unfold backend_laws. destruct passlib; simpl;
    [apply ref_passlib_laws | apply ref_bcrypt_laws].
Qed.

(** ** Telling passwords apart *)

Lemma str_eqb_neq (a b : pystr) : a <> b -> str_eqb a b = false.
Proof.
  intros H. destruct (str_eqb a b) eqn:E; [|reflexivity].
  apply str_eqb_eq in E. contradiction.
Qed.

(** Two strings with the same encoding are the same string. *)
Lemma encode_inj (s s' : pystr) (b : pybytes) :
  encode s = Ok b -> encode s' = Ok b -> s = s'.
Proof.
  unfold encode. intros H H'.
  destruct (utf8_encode s) as [c|] eqn:E; [|discriminate].
  destruct (utf8_encode s') as [c'|] eqn:E'; [|discriminate].
  apply Ok_inj in H, H'. subst c c'.
  apply utf8_decode_encode in E, E'. congruence.
Qed.

(** With a library that tells passwords apart, [verify_password] returns
    [False] for a password that can be hashed and is not the one the digest
    was made from. *)
Lemma verify_rejects (B : Backend) (L : backend_laws B) (R : backend_rejects B)
    (raw raw' : pystr) (r r' : Rand B) (d d' : pybytes) :
  digest_of B raw r = Ok d -> digest_of B raw' r' = Ok d' -> raw <> raw' ->
  verify_password B raw' d = Ok false.
Proof.
  intros H. pose proof (@digest_storable B L _ _ _ H) as Hs. revert H.
  unfold backend_laws, backend_rejects, digest_of, verify_password in *.
  destruct (use_passlib B); intros H H' Hne;
    apply obind_ok in H as (a & Ha & Hd);
    apply obind_ok in H' as (a' & Ha' & Hd').
  - pose proof (hash_storable L _ _ Ha) as Hsa.
    rewrite (encode_ascii _ (storable_ascii _ Hsa)) in Hd.
    apply Ok_inj in Hd. subst a.
    rewrite (decode_ascii _ (storable_ascii _ Hs)). cbn [obind].
    now rewrite (R _ _ _ _ _ _ Ha Ha' Hne).
  - rewrite Ha'. cbn [obind].
    apply (R _ _ _ _ _ _ Hd Hd').
    intros E. subst a'. exact (Hne (encode_inj _ _ Ha Ha')).
Qed.

(** *** [strip] on a bare line *)

Lemma rstrip_bare (s : pystr) :
  s <> [] -> isspace (last s 0) = false -> rstrip s = s.
Proof.
  intros Hs Hl. unfold rstrip.
  rewrite (app_removelast_last 0 Hs) at 1.
  rewrite rev_app_distr. cbn [rev app lstrip]. rewrite Hl.
  change (last s 0 :: rev (removelast s)) with (rev [last s 0] ++ rev (removelast s)).
  rewrite <- rev_app_distr, rev_involutive.
  symmetry. now apply app_removelast_last.
Qed.

Lemma strip_bare (s : pystr) : bare s = true -> strip s = s.
Proof.
  unfold bare, strip. destruct s as [|c s]; [discriminate|].
  intros H. apply andb_true_iff in H as [Hc Hl].
  apply negb_true_iff in Hc, Hl.
  cbn [lstrip]. rewrite Hc. apply rstrip_bare; [discriminate | exact Hl].
Qed.

Lemma bare_nonempty (s : pystr) : bare s = true -> s <> [].
Proof. destruct s; [discriminate | discriminate]. Qed.

(** ** The backend that tells passwords apart meets the laws *)

Lemma enc_bytes_length (pw : pybytes) :
  List.length (enc_bytes pw) = (2 * List.length pw)%nat.
Proof.
  unfold enc_bytes. induction pw as [|b pw IH]; [reflexivity|].
  cbn [flat_map]. rewrite length_app, IH. simpl. lia.
Qed.

Lemma enc_bytes_b64 (pw : pybytes) :
  forallb (fun b => b <? 256) pw = true ->
  forallb is_b64 (enc_bytes pw) = true.
Proof.
  unfold enc_bytes. induction pw as [|b pw IH]; [reflexivity|].
  intros H. cbn [forallb] in H. apply andb_true_iff in H as [Hb Hpw].
  apply N.ltb_lt in Hb. cbn [flat_map enc_byte app forallb].
  rewrite !b64char_is_b64, (IH Hpw); [reflexivity| |].
  - apply N.Div0.div_lt_upper_bound. lia.
  - apply N.mod_lt. discriminate.
Qed.

Lemma enc_bytes_inj (pw pw' : pybytes) :
  forallb (fun b => b <? 256) pw = true ->
  forallb (fun b => b <? 256) pw' = true ->
  enc_bytes pw = enc_bytes pw' -> pw = pw'.
Proof.
  unfold enc_bytes. revert pw'.
  induction pw as [|b pw IH]; intros [|b' pw'] H H' E;
    try reflexivity; try discriminate.
  cbn [forallb] in H, H'.
  apply andb_true_iff in H as [Hb Hpw]. apply andb_true_iff in H' as [Hb' Hpw'].
  apply N.ltb_lt in Hb, Hb'.
  cbn [flat_map enc_byte app] in E. inversion E as [[E0 E1 E2]].
  apply b64char_inj in E0; try (apply N.mod_lt; discriminate).
  apply b64char_inj in E1; try (apply N.Div0.div_lt_upper_bound; lia).
  f_equal.
  - rewrite (N.div_mod' b 64), (N.div_mod' b' 64). congruence.
  - now apply IH.
Qed.

Lemma hashable_bytes (pw : pybytes) :
  hashable pw = true ->
  (List.length pw <= 72)%nat /\ forallb (fun b => b <? 256) pw = true.
Proof.
  unfold hashable. intros H. apply andb_true_iff in H as [Hl Hb].
  apply Nat.leb_le in Hl. now split.
Qed.

Lemma exact_hashpw_salted (pw s : pybytes) (d : pybytes) :
  List.length s = 29%nat -> ref_salt_ok s = true ->
  forall more, exact_hashpw pw (s ++ more) = Ok d ->
  hashable pw = true /\ d = (s ++ ref_tag pw s) ++ enc_bytes pw.
Proof.
  intros Hlen Hok more. unfold exact_hashpw.
  destruct (hashable pw); [|discriminate].
  rewrite (@ref_hashpw_salted pw s Hlen Hok more). cbn [obind].
  intros E. apply Ok_inj in E. now split.
Qed.

Lemma exact_hashpw_gensalt (pw : pybytes) (r : ref_Rand) (d : pybytes) :
  exact_hashpw pw (ref_gensalt r) = Ok d ->
  hashable pw = true
  /\ d = (ref_gensalt r ++ ref_tag pw (ref_gensalt r)) ++ enc_bytes pw.
Proof.
  rewrite <- (app_nil_r (ref_gensalt r)) at 1.
  apply exact_hashpw_salted; [apply ref_gensalt_length | apply ref_gensalt_ok].
Qed.

(** Hashing again under the digest's own salt. *)
Lemma exact_hashpw_again (pw pw' : pybytes) (r : ref_Rand) :
  hashable pw' = true ->
  exact_hashpw pw'
    ((ref_gensalt r ++ ref_tag pw (ref_gensalt r)) ++ enc_bytes pw)
  = Ok ((ref_gensalt r ++ ref_tag pw' (ref_gensalt r)) ++ enc_bytes pw').
Proof.
  intros H. unfold exact_hashpw. rewrite H, <- !app_assoc.
  rewrite (@ref_hashpw_salted pw' (ref_gensalt r) (ref_gensalt_length r) (ref_gensalt_ok r)).
  cbn [obind]. now rewrite <- !app_assoc.
Qed.

Lemma exact_bcrypt_laws (passlib : bool) : bcrypt_laws (exact_backend passlib).
Proof.
  constructor;
    cbn [exact_backend Rand bcrypt_hashpw bcrypt_gensalt bcrypt_checkpw].
  - intros pw r d H. apply exact_hashpw_gensalt in H as [Hh Ed]. subst d.
    unfold exact_checkpw. rewrite (@exact_hashpw_again pw pw r Hh). cbn [obind].
    now rewrite str_eqb_refl.
  - intros pw r1 r2 d1 d2 Hr H1 H2 E.
    apply exact_hashpw_gensalt in H1 as [_ E1].
    apply exact_hashpw_gensalt in H2 as [_ E2]. subst d1 d2.
    rewrite <- !app_assoc in E.
    apply Hr, ref_gensalt_inj.
    apply app_eq_prefix in E; [exact E|]. now rewrite !ref_gensalt_length.
  - intros pw r d H. apply exact_hashpw_gensalt in H as [Hh Ed]. subst d.
    apply hashable_bytes in Hh as [Hl Hb].
    pose proof (ref_digest_storable pw r) as Hs.
    unfold storable in *.
    apply andb_true_iff in Hs as [Hs _]. apply andb_true_iff in Hs as [Ha Hn].
    rewrite length_app, length_app, ref_gensalt_length, ref_tag_length,
      enc_bytes_length.
    pose proof (forallb_b64_ascii _ (enc_bytes_b64 _ Hb)) as He.
    unfold is_ascii in *. rewrite forallb_app, Ha, He.
    destruct (ref_gensalt r ++ ref_tag pw (ref_gensalt r)) as [|c l];
      [discriminate|].
    cbn [app is_empty negb andb]. apply Nat.leb_le. unfold VARCHAR_MAX. lia.
Qed.

Lemma exact_bcrypt_rejects (passlib : bool) : bcrypt_rejects (exact_backend passlib).
Proof.
  unfold bcrypt_rejects.
  cbn [exact_backend Rand bcrypt_hashpw bcrypt_gensalt bcrypt_checkpw].
  intros pw pw' r r' d d' H H' Hne.
  apply exact_hashpw_gensalt in H as [Hh Ed]. subst d.
  apply exact_hashpw_gensalt in H' as [Hh' _].
  unfold exact_checkpw. rewrite (@exact_hashpw_again pw pw' r Hh'). cbn [obind].
  f_equal. apply str_eqb_neq. intros E. apply Hne.
  apply hashable_bytes in Hh as [_ Hb]. apply hashable_bytes in Hh' as [_ Hb'].
  symmetry. apply (@enc_bytes_inj _ _ Hb' Hb).
  assert (El : List.length (ref_gensalt r ++ ref_tag pw' (ref_gensalt r))
               = List.length (ref_gensalt r ++ ref_tag pw (ref_gensalt r)))
    by (now rewrite !length_app, !ref_tag_length).
  pose proof (@app_eq_prefix _ _ _ _ _ El E) as Ep. rewrite Ep in E.
  now apply app_inv_head in E.
Qed.

Lemma exact_passlib_laws (passlib : bool) : passlib_laws (exact_backend passlib).
Proof.
  pose proof (exact_bcrypt_laws passlib) as Lb.
  constructor;
    cbn [exact_backend Rand passlib_hash passlib_verify];
    unfold exact_passlib_hash, exact_passlib_verify.
  - intros raw r h H. apply obind_ok in H as (b & Hb & Hh). rewrite Hb. cbn [obind].
    exact (checkpw_hashpw Lb _ _ Hh).
  - intros raw r1 r2 h1 h2 Hr H1 H2.
    apply obind_ok in H1 as (b1 & Hb1 & Hh1).
    apply obind_ok in H2 as (b2 & Hb2 & Hh2).
    rewrite Hb1 in Hb2. apply Ok_inj in Hb2. subst b2.
    exact (hashpw_salted Lb _ Hr Hh1 Hh2).
  - intros raw r h H. apply obind_ok in H as (b & Hb & Hh).
    exact (hashpw_storable Lb _ _ Hh).
Qed.

Lemma exact_passlib_rejects (passlib : bool) :
  passlib_rejects (exact_backend passlib).
Proof.
  pose proof (@exact_bcrypt_rejects passlib) as Sb.
  unfold passlib_rejects, bcrypt_rejects in *.
  cbn [exact_backend Rand passlib_hash passlib_verify bcrypt_hashpw
       bcrypt_gensalt bcrypt_checkpw] in *.
  unfold exact_passlib_hash, exact_passlib_verify.
  intros raw raw' r r' h h' H H' Hne.
  apply obind_ok in H as (b & Hb & Hh).
  apply obind_ok in H' as (b' & Hb' & Hh').
  rewrite Hb'. cbn [obind]. apply (Sb _ _ _ _ _ _ Hh Hh').
  intros E. subst b'. exact (Hne (encode_inj _ _ Hb Hb')).
Qed.

Lemma exact_backend_laws (passlib : bool) : backend_laws (exact_backend passlib).
Proof.
  unfold backend_laws. destruct passlib; simpl;
    [apply exact_passlib_laws | apply exact_bcrypt_laws].
Qed.

Lemma exact_backend_rejects (passlib : bool) :
  backend_rejects (exact_backend passlib).
Proof.
  unfold backend_rejects. destruct passlib; simpl;
    [apply exact_passlib_rejects | apply exact_bcrypt_rejects].
Qed.

(** ** The backend that accepts every password meets the laws of C1 *)

Lemma lax_backend_laws : backend_laws lax_backend.
Proof.
  pose proof (ref_bcrypt_laws false) as Lb.
  unfold backend_laws. cbn [lax_backend use_passlib].
  constructor; cbn [lax_backend Rand bcrypt_hashpw bcrypt_gensalt bcrypt_checkpw].
  - reflexivity.
  - exact (hashpw_salted Lb).
  - exact (hashpw_storable Lb).
Qed.

(** * The claims *)

(** ** C1: register, then log in *)

(** C1 (as amended).  For every username [u] and password [p] that are not
    empty once stripped of surrounding whitespace, with the stripped
    username no wider than its column and not yet in the table, and a
    password the hasher turns into a digest: [register(u, p)] succeeds and
    the following [login(u, p)] succeeds, greeting the stripped username. *)
Theorem register_then_login_succeeds
    (B : Backend) (L : backend_laws B) (w : World B)
    (u p : pystr) (t : Table) (d : pybytes) :
  strip u <> [] -> strip p <> [] ->
  (List.length (strip u) <= VARCHAR_MAX)%nat ->
  session w = Some t -> has_key (strip u) t = false ->
  digest_of B (strip p) (urandom w (drawn w)) = Ok d ->
  exists w1 w2,
    typed [u; p] register w = (Ok tt, w1)
    /\ typed [u; p] login w1 = (Ok tt, w2)
    /\ session w2 = Some (t ++ [(strip u, d)])
    /\ committed w2 = session w2
    /\ console w2
       = console w
         ++ [Prompt (lit "Enter new username: ");
             Prompt (lit "Enter new password: ");
             Print msg_registered;
             Prompt (lit "Username: ");
             Prompt (lit "Password: ");
             Print (msg_welcome (strip u))].
Proof.
  intros Hu Hp Hlen Ht Hk Hd.
  pose proof (@digest_storable B L _ _ _ Hd) as Hs.
  eexists. eexists. split; [|split].
  - exact (@register_fresh B w u p t d Hu Hp Hd Hs Ht Hlen Hk).
  - eapply (@login_found B _ u p (t ++ [(strip u, d)]) d [] true Hu).
    + reflexivity.
    + now apply select_hash_inserted.
    + now apply storable_ascii.
    + exact (@hash_then_verify B L _ _ _ Hd).
  - world_step. repeat split. now rewrite <- !app_assoc.
Qed.

Lemma register_then_login_witness :
  exists w1 w2,
    typed [lit "alice"; lit "s3cret"] register (ref_world false (Some []) [])
    = (Ok tt, w1)
    /\ typed [lit "alice"; lit "s3cret"] login w1 = (Ok tt, w2)
    /\ session w2
       = Some ([] ++ [(strip (lit "alice"),
                       ref_gensalt (mk_rand 0)
                       ++ ref_tag (lit "s3cret") (ref_gensalt (mk_rand 0)))])
    /\ committed w2 = session w2
    /\ console w2
       = []
         ++ [Prompt (lit "Enter new username: ");
             Prompt (lit "Enter new password: ");
             Print msg_registered;
             Prompt (lit "Username: ");
             Prompt (lit "Password: ");
             Print (msg_welcome (strip (lit "alice")))].
Proof.
  apply (@register_then_login_succeeds (ref_backend false)
           (ref_backend_laws false) (ref_world false (Some []) [])
           (lit "alice") (lit "s3cret") []).
  - vm_compute. discriminate.
  - vm_compute. discriminate.
  - vm_compute. lia.
  - reflexivity.
  - reflexivity.
  - vm_compute. reflexivity.
Defined.

(** C1 as stated fails for a username made of whitespace: it is not the
    empty string, yet [register] refuses it, nothing is stored, and [login]
    refuses it as well. *)
Lemma register_then_login_whitespace_username :
  let u := lit " " in
  let p := lit "s3cret" in
  let w := ref_world false (Some []) [] in
  let w1 := snd (typed [u; p] register w) in
  let w2 := snd (typed [u; p] login w1) in
  u <> [] /\ p <> [] /\ has_key u [] = false
  /\ session w1 = Some []
  /\ console w2
     = [Prompt (lit "Enter new username: "); Print msg_username_empty;
        Prompt (lit "Username: "); Print msg_username_empty].
Proof. vm_compute. repeat split; discriminate. Qed.

(** ** C2: verifying against a malformed digest *)

(** C2.  With passlib, [verify_password] never raises an [Exception]: the
    [try] turns it into [False].  With bcrypt there is no [try], and what
    [bcrypt.checkpw] raises on a digest it cannot parse reaches the caller. *)
Theorem verify_password_malformed (B : Backend) (raw : pystr) (stored : pybytes) :
  (use_passlib B = true ->
   forall e, verify_password B raw stored = Raise e -> is_Exception e = false)
  /\ (use_passlib B = false ->
      forall b e, encode raw = Ok b -> bcrypt_checkpw B b stored = Raise e ->
                  verify_password B raw stored = Raise e).
Proof.
  unfold verify_password. split; intros Hlib; rewrite Hlib.
  - intros e. destruct (obind (decode stored) (passlib_verify B raw)) as [b|e'].
    + discriminate.
    + destruct (is_Exception e') eqn:E; [discriminate|].
      intros H. apply (f_equal (fun o => match o with
                                         | Raise x => is_Exception x
                                         | Ok _ => false
                                         end)) in H.
      simpl in H. congruence.
  - intros b e Hb He. now rewrite Hb.
Qed.

Lemma verify_password_malformed_witness :
  verify_password (ref_backend false) (lit "x") []
  = Raise (ValueError "Invalid salt")
  /\ verify_password (ref_backend true) (lit "x") [] = Ok false.
Proof.
  split.
  - apply (proj2 (verify_password_malformed (ref_backend false) (lit "x") [])
             eq_refl (lit "x")); reflexivity.
  - reflexivity.
Defined.

(** ** C3: empty input and the store *)

(** C3.  [register] turns an empty password away before any statement is
    sent; [login] does not look at the password before it queries: with an
    empty password its [SELECT] is sent all the same. *)
Theorem login_empty_password_queries
    (B : Backend) (w : World B) (u p : pystr) :
  strip u <> [] -> strip p = [] ->
  db_log (snd (typed [u; p] register w)) = db_log w
  /\ db_log (snd (typed [u; p] login w)) = db_log w ++ [Select (strip u)].
Proof.
  intros Hu Hp. split.
  - now rewrite (@register_empty_password B w u p Hu Hp).
  - unfold typed, login, bind, getpass, input, execute_select, fetchone, lift,
      print.
    world_step. rewrite (is_empty_false Hu). world_step.
    destruct (session w) as [t|]; [|reflexivity]. world_step.
    destruct (select_hash (strip u) t) as [|h more]; [reflexivity|].
    destruct (encode h) as [b|e]; [|reflexivity].
    destruct (verify_password B (strip p) b) as [[|]|e]; reflexivity.
Qed.

Lemma login_empty_password_witness :
  db_log (snd (typed [lit "alice"; lit ""] register (ref_world false (Some []) [])))
  = []
  /\ db_log (snd (typed [lit "alice"; lit ""] login (ref_world false (Some []) [])))
     = [] ++ [Select (strip (lit "alice"))].
Proof.
  apply (@login_empty_password_queries (ref_backend false)
           (ref_world false (Some []) []) (lit "alice") (lit "")).
  - vm_compute. discriminate.
  - reflexivity.
Defined.

(** ** C4: registering a username twice *)

(** C4 (as amended).  For every username whose stripped form is not empty,
    fits its column and is already in the table, and every password that is
    not empty once stripped and that the hasher turns into a digest:
    [register] reports that the username exists, and the table, as the
    connection sees it and as it is committed, is what it was. *)
Theorem register_existing_username
    (B : Backend) (L : backend_laws B) (w : World B)
    (u p : pystr) (t : Table) (d : pybytes) :
  strip u <> [] -> strip p <> [] ->
  (List.length (strip u) <= VARCHAR_MAX)%nat ->
  session w = Some t -> has_key (strip u) t = true ->
  digest_of B (strip p) (urandom w (drawn w)) = Ok d ->
  exists w',
    typed [u; p] register w = (Ok tt, w')
    /\ console w'
       = console w
         ++ [Prompt (lit "Enter new username: ");
             Prompt (lit "Enter new password: ");
             Print msg_username_exists]
    /\ session w' = session w
    /\ committed w' = committed w
    /\ db_log w' = db_log w ++ [Insert (strip u) d].
Proof.
  intros Hu Hp Hlen Ht Hk Hd.
  pose proof (@digest_storable B L _ _ _ Hd) as Hs.
  eexists. split.
  - exact (@register_taken B w u p t d Hu Hp Hd Hs Ht Hlen Hk).
  - world_step. repeat split. now rewrite <- !app_assoc.
Qed.

Lemma register_existing_username_witness :
  exists w',
    typed [lit "alice"; lit "anything"] register
      (ref_world true (Some [(lit "alice", lit "$2b$12$stored")]) [])
    = (Ok tt, w')
    /\ console w'
       = []
         ++ [Prompt (lit "Enter new username: ");
             Prompt (lit "Enter new password: ");
             Print msg_username_exists]
    /\ session w' = Some [(lit "alice", lit "$2b$12$stored")]
    /\ committed w' = Some [(lit "alice", lit "$2b$12$stored")]
    /\ db_log w'
       = [] ++ [Insert (strip (lit "alice"))
                  (ref_gensalt (mk_rand 0)
                   ++ ref_tag (lit "anything") (ref_gensalt (mk_rand 0)))].
Proof.
  apply (@register_existing_username (ref_backend true)
           (ref_backend_laws true)
           (ref_world true (Some [(lit "alice", lit "$2b$12$stored")]) [])
           (lit "alice") (lit "anything") [(lit "alice", lit "$2b$12$stored")]).
  - vm_compute. discriminate.
  - vm_compute. discriminate.
  - vm_compute. lia.
  - reflexivity.
  - reflexivity.
  - vm_compute. reflexivity.
Defined.

(** C4 as stated fails for the empty password: the username is in the
    table, yet what [register] reports is the empty password, not the taken
    username. *)
Lemma register_existing_username_empty_password :
  let t := [(lit "alice", lit "$2b$12$stored")] in
  let w' := snd (typed [lit "alice"; lit ""] register (ref_world false (Some t) [])) in
  has_key (lit "alice") t = true
  /\ console w'
     = [Prompt (lit "Enter new username: ");
        Prompt (lit "Enter new password: ");
        Print msg_password_empty]
  /\ msg_password_empty <> msg_username_exists.
Proof. vm_compute. repeat split. discriminate. Qed.

(** ** C5: logging in with an unknown username *)

(** C5 (as amended).  For every username whose stripped form is not empty
    and not in the table, and every password that is not empty once
    stripped: [login] returns normally after printing that the user was not
    found, and the menu loop goes on to its next turn with the lines that
    are left. *)
Theorem login_unknown_user
    (B : Backend) (w : World B) (u p : pystr) (t : Table) :
  strip u <> [] -> strip p <> [] ->
  session w = Some t -> has_key (strip u) t = false ->
  typed [u; p] login w
  = (Ok tt,
     emit (Print msg_user_not_found)
       (set_result_set [] (sent (Select (strip u)) (asked_password w))))
  /\ forall (turns : nat) (rest : list pystr),
       main_loop (S turns) (set_stdin (lit "2" :: u :: p :: rest) w)
       = main_loop turns
           (set_stdin rest
              (emit (Print msg_user_not_found)
                 (set_result_set []
                    (sent (Select (strip u))
                       (asked_password
                          (emit (Prompt (lit "Choice: "))
                             (emit (Print msg_menu) w))))))).
Proof.
  intros Hu _ Ht Hk. split.
  - exact (@login_not_found B w u p t Hu Ht Hk).
  - intros turns rest. cbn [main_loop].
    unfold bind at 1, print at 1, input at 1. world_step.
    change (strip (lit "2")) with (lit "2").
    change (str_eqb (lit "2") (lit "3")) with false.
    change (str_eqb (lit "2") (lit "1")) with false.
    change (str_eqb (lit "2") (lit "2")) with true. cbn iota.
    unfold login, bind, getpass, input, execute_select, fetchone, print.
    world_step. rewrite (is_empty_false Hu). world_step. rewrite Ht.
    world_step. rewrite (select_hash_absent _ _ Hk). reflexivity.
Qed.

Lemma login_unknown_user_witness :
  typed [lit "bob"; lit "x"] login (ref_world false (Some []) [])
  = (Ok tt,
     emit (Print msg_user_not_found)
       (set_result_set []
          (sent (Select (strip (lit "bob")))
             (asked_password (ref_world false (Some []) [])))))
  /\ forall (turns : nat) (rest : list pystr),
       main_loop (S turns)
         (set_stdin (lit "2" :: lit "bob" :: lit "x" :: rest)
            (ref_world false (Some []) []))
       = main_loop turns
           (set_stdin rest
              (emit (Print msg_user_not_found)
                 (set_result_set []
                    (sent (Select (strip (lit "bob")))
                       (asked_password
                          (emit (Prompt (lit "Choice: "))
                             (emit (Print msg_menu)
                                (ref_world false (Some []) [])))))))).
Proof.
  apply (@login_unknown_user (ref_backend false)
           (ref_world false (Some []) []) (lit "bob") (lit "x") []).
  - vm_compute. discriminate.
  - vm_compute. discriminate.
  - reflexivity.
  - reflexivity.
Defined.

(** C5 as stated fails for the empty username: it is not in the table, yet
    [login] reports an empty username and never looks the user up. *)
Lemma login_unknown_user_empty_username :
  let w' := snd (typed [lit ""; lit "x"] login (ref_world false (Some []) [])) in
  has_key (lit "") [] = false
  /\ lit "x" <> []
  /\ console w' = [Prompt (lit "Username: "); Print msg_username_empty]
  /\ db_log w' = []
  /\ msg_username_empty <> msg_user_not_found.
Proof. vm_compute. repeat split; discriminate. Qed.

(** ** C6: logging in with another password *)

(** C6 (as amended).  With a library that tells the passwords it can hash
    apart: after [register(u, p1)] as in C1, for every password [p2] the
    library can hash and whose stripped form is not that of [p1],
    [verify_password] returns [False] for [p2] against the digest stored
    for [p1], and [login(u, p2)] reports invalid credentials, a message
    other than the one for an unknown user. *)
Theorem login_wrong_password
    (B : Backend) (L : backend_laws B) (R : backend_rejects B) (w : World B)
    (u p1 p2 : pystr) (t : Table) (r2 : Rand B) (d d2 : pybytes) :
  strip u <> [] -> strip p1 <> [] -> strip p1 <> strip p2 ->
  (List.length (strip u) <= VARCHAR_MAX)%nat ->
  session w = Some t -> has_key (strip u) t = false ->
  digest_of B (strip p1) (urandom w (drawn w)) = Ok d ->
  digest_of B (strip p2) r2 = Ok d2 ->
  verify_password B (strip p2) d = Ok false
  /\ msg_invalid_credentials <> msg_user_not_found
  /\ exists w1 w2,
       typed [u; p1] register w = (Ok tt, w1)
       /\ session w1 = Some (t ++ [(strip u, d)])
       /\ typed [u; p2] login w1 = (Ok tt, w2)
       /\ console w2
          = console w
            ++ [Prompt (lit "Enter new username: ");
                Prompt (lit "Enter new password: ");
                Print msg_registered;
                Prompt (lit "Username: ");
                Prompt (lit "Password: ");
                Print msg_invalid_credentials].
Proof.
  intros Hu Hp Hne Hlen Ht Hk Hd Hd2.
  pose proof (@digest_storable B L _ _ _ Hd) as Hs.
  pose proof (@verify_rejects B L R _ _ _ _ _ _ Hd Hd2 Hne) as Hv.
  split; [exact Hv | split; [discriminate|]].
  eexists. eexists. split; [|split; [|split]].
  - exact (@register_fresh B w u p1 t d Hu Hp Hd Hs Ht Hlen Hk).
  - reflexivity.
  - eapply (@login_found B _ u p2 (t ++ [(strip u, d)]) d [] false Hu).
    + reflexivity.
    + now apply select_hash_inserted.
    + now apply storable_ascii.
    + exact Hv.
  - world_step. now rewrite <- !app_assoc.
Qed.

Lemma login_wrong_password_witness :
  let d := (ref_gensalt (mk_rand 0)
            ++ ref_tag (lit "s3cret") (ref_gensalt (mk_rand 0)))
           ++ enc_bytes (lit "s3cret") in
  verify_password (exact_backend false) (strip (lit "wrong")) d = Ok false
  /\ msg_invalid_credentials <> msg_user_not_found
  /\ exists w1 w2,
       typed [lit "alice"; lit "s3cret"] register
         (exact_world false (Some []) [])
       = (Ok tt, w1)
       /\ session w1 = Some ([] ++ [(strip (lit "alice"), d)])
       /\ typed [lit "alice"; lit "wrong"] login w1 = (Ok tt, w2)
       /\ console w2
          = []
            ++ [Prompt (lit "Enter new username: ");
                Prompt (lit "Enter new password: ");
                Print msg_registered;
                Prompt (lit "Username: ");
                Prompt (lit "Password: ");
                Print msg_invalid_credentials].
Proof.
  apply (@login_wrong_password (exact_backend false)
           (exact_backend_laws false) (@exact_backend_rejects false)
           (exact_world false (Some []) [])
           (lit "alice") (lit "s3cret") (lit "wrong") [] (mk_rand 0)
           ((ref_gensalt (mk_rand 0)
             ++ ref_tag (lit "s3cret") (ref_gensalt (mk_rand 0)))
            ++ enc_bytes (lit "s3cret"))
           ((ref_gensalt (mk_rand 0)
             ++ ref_tag (lit "wrong") (ref_gensalt (mk_rand 0)))
            ++ enc_bytes (lit "wrong"))).
  - vm_compute. discriminate.
  - vm_compute. discriminate.
  - vm_compute. discriminate.
  - vm_compute. lia.
  - reflexivity.
  - reflexivity.
  - vm_compute. reflexivity.
  - vm_compute. reflexivity.
Defined.

(** The laws of C1 alone do not give this: a library that accepts every
    password meets them, and lets the other password in. *)
Example lax_library_accepts_wrong_password :
  let w1 := snd (typed [lit "alice"; lit "s3cret"] register
                   (lax_world (Some []) [])) in
  let w2 := snd (typed [lit "alice"; lit "wrong"] login w1) in
  console w2
  = [Prompt (lit "Enter new username: ");
     Prompt (lit "Enter new password: ");
     Print msg_registered;
     Prompt (lit "Username: ");
     Prompt (lit "Password: ");
     Print (msg_welcome (lit "alice"))].
Proof. vm_compute. reflexivity. Qed.

(** C6 as stated fails for two passwords that differ in surrounding
    whitespace only: they are different strings, and the login succeeds. *)
Lemma login_wrong_password_trailing_space :
  let u := lit "alice" in
  let p1 := lit "s3cret" in
  let p2 := lit "s3cret " in
  let w1 := snd (typed [u; p1] register (ref_world false (Some []) [])) in
  let w2 := snd (typed [u; p2] login w1) in
  u <> [] /\ p1 <> p2
  /\ console w2
     = [Prompt (lit "Enter new username: ");
        Prompt (lit "Enter new password: ");
        Print msg_registered;
        Prompt (lit "Username: ");
        Prompt (lit "Password: ");
        Print (msg_welcome u)].
Proof. vm_compute. repeat split; discriminate. Qed.

(** ** C7: two digests of one password *)

(** C7 (as amended).  Two calls of [hash_password] on one password that
    return digests, made from two different draws, return two different
    digests, and [verify_password] accepts the password for each. *)
Theorem two_digests_differ_and_verify
    (B : Backend) (L : backend_laws B) (w w1 w2 : World B)
    (p : pystr) (d1 d2 : pybytes) :
  hash_password B p w = (Ok d1, w1) ->
  hash_password B p w1 = (Ok d2, w2) ->
  urandom w (drawn w) <> urandom w (S (drawn w)) ->
  d1 <> d2
  /\ verify_password B p d1 = Ok true
  /\ verify_password B p d2 = Ok true.
Proof.
  intros H1 H2 Hr.
  apply hash_password_inv in H1 as [E1 Hd1]. subst w1.
  apply hash_password_inv in H2 as [E2 Hd2]. subst w2.
  cbn [urandom drawn next_draw] in Hd2.
  split; [|split].
  - exact (@salt_in_digest B L p _ _ d1 d2 Hr Hd1 Hd2).
  - exact (@hash_then_verify B L _ _ _ Hd1).
  - exact (@hash_then_verify B L _ _ _ Hd2).
Qed.

Lemma mk_rand_0_1 : mk_rand 0 <> mk_rand 1.
Proof. intros E. apply (f_equal (@proj1_sig _ _)) in E. discriminate. Qed.

Lemma two_digests_differ_and_verify_witness :
  let p := lit "s3cret" in
  let d1 := ref_gensalt (mk_rand 0) ++ ref_tag p (ref_gensalt (mk_rand 0)) in
  let d2 := ref_gensalt (mk_rand 1) ++ ref_tag p (ref_gensalt (mk_rand 1)) in
  d1 <> d2
  /\ verify_password (ref_backend false) p d1 = Ok true
  /\ verify_password (ref_backend false) p d2 = Ok true.
Proof.
  apply (@two_digests_differ_and_verify (ref_backend false)
           (ref_backend_laws false)
           (ref_world false (Some []) [])
           (next_draw (ref_world false (Some []) []))
           (next_draw (next_draw (ref_world false (Some []) [])))).
  - apply hash_password_ok. vm_compute. reflexivity.
  - apply hash_password_ok. vm_compute. reflexivity.
  - exact mk_rand_0_1.
Defined.

(** C7 as stated fails for a password that has no UTF-8 encoding, such as
    a line holding a lone surrogate: [raw.encode()] raises, and
    [hash_password] returns no digest. *)
Lemma hash_password_unencodable :
  let p := [0xD800] in
  encode p = Raise UnicodeEncodeError
  /\ fst (hash_password (ref_backend false) p (ref_world false (Some []) []))
     = Raise UnicodeEncodeError.
Proof. split; vm_compute; reflexivity. Qed.

(** With a library that refuses more than 72 bytes, a password of 73 is
    refused as well. *)
Example hash_password_too_long :
  fst (hash_password (exact_backend false) (repeat 97 73)
         (exact_world false (Some []) []))
  = Raise (ValueError "password cannot be longer than 72 bytes").
Proof. vm_compute. reflexivity. Qed.

(** ** C8: failing to connect *)

(** C8.  [connect] returns the connection the driver opened.  When the
    driver raises a connector error, the error falls into exactly one of
    three classes by its [errno], the diagnostic of that class is printed,
    and the process exits with status 1; the three diagnostics are
    different texts, whatever the database name and the error text. *)
Theorem connect_classifies (B : Backend) (cfg : Config) (w : World B) :
  match mysql_connect B cfg with
  | Connected conn => connect B cfg w = (Ok conn, w)
  | ConnectorError errno text =>
      connect B cfg w
      = (Raise (SystemExit 1),
         emit (Print (diagnostic cfg (classify errno) text)) w)
      /\ (classify errno = DatabaseMissing <-> errno = ER_BAD_DB_ERROR)
      /\ (classify errno = AccessDenied <-> errno = ER_ACCESS_DENIED_ERROR)
      /\ (1 <> 0)%Z
  | ConnectFailure e => connect B cfg w = (Raise e, w)
  end
  /\ forall name text text' : pystr,
       msg_bad_db name <> msg_access_denied
       /\ msg_bad_db name <> msg_connection_error text
       /\ msg_access_denied <> msg_connection_error text'.
Proof.
  split.
  - unfold connect. destruct (mysql_connect B cfg) as [conn|errno text|e];
      [reflexivity| |reflexivity].
    unfold classify, diagnostic, bind, exit, raise, print,
      ER_BAD_DB_ERROR, ER_ACCESS_DENIED_ERROR.
    destruct (Z.eqb_spec errno 1049) as [E|E];
      [|destruct (Z.eqb_spec errno 1045) as [E'|E']];
      (split; [reflexivity|]); repeat split;
      try discriminate; try lia; try congruence.
  - intros name text text'. repeat split; discriminate.
Qed.

(** The reference server, asked for a database it does not have. *)
Example connect_unknown_database :
  let cfg := {| DB_HOST := lit "localhost"; DB_USER := lit "root";
                DB_PASSWORD := lit "secret"; DB_NAME := lit "shop" |} in
  let r := connect (ref_backend false) cfg (ref_world false None []) in
  fst r = Raise (SystemExit 1)
  /\ console (snd r)
     = [Print (lit "Database 'shop' does not exist. Please create it and rerun. (e.g. CREATE DATABASE shop;)")].
Proof. vm_compute. split; reflexivity. Qed.

(** ** C9: the invariant of the table *)

Lemma NoDup_snoc {A} (l : list A) (x : A) :
  NoDup l -> ~ In x l -> NoDup (l ++ [x]).
Proof.
  induction 1 as [|y l Hy Hl IH]; intros Hx; simpl.
  - constructor; [intros [] | constructor].
  - constructor.
    + rewrite in_app_iff. intros [H|[H|[]]]; [contradiction|].
      subst. apply Hx. now left.
    + apply IH. intros H. apply Hx. now right.
Qed.

Lemma table_ok_nil (B : Backend) : table_ok B [].
Proof. split; [constructor | intros u h []]. Qed.

(** A row whose key is new and whose hash the hasher made keeps the table
    well formed. *)
Lemma table_ok_insert (B : Backend) (t : Table) (u h : pystr) :
  table_ok B t -> has_key u t = false -> hash_ok B h ->
  table_ok B (t ++ [(u, h)]).
Proof.
  intros [Hnd Hh] Hk Hok. split.
  - unfold usernames. rewrite map_app. apply NoDup_snoc; [exact Hnd|].
    intros H. apply (proj2 (has_key_In u t)) in H. congruence.
  - intros u' h' H. apply in_app_iff in H as [H|[H|[]]].
    + exact (Hh _ _ H).
    + now inversion H; subst.
Qed.

Section Invariant.

Variable B : Backend.
Hypothesis L : backend_laws B.

(** What [hash_password] returns is a digest that can be stored as it is. *)
Lemma hashed_is_ok (raw : pystr) (w w' : World B) (d : pybytes) (h : pystr) :
  hash_password B raw w = (Ok d, w') -> decode d = Ok h -> hash_ok B h.
Proof.
  intros H Hdec. apply hash_password_inv in H as [_ Hd].
  pose proof (@digest_storable B L _ _ _ Hd) as Hs.
  pose proof Hdec as Hh.
  rewrite (decode_ascii _ (storable_ascii _ Hs)) in Hh. apply Ok_inj in Hh.
  subst h. split; [now apply storable_nonempty | eauto].
Qed.

Lemma setup_table_keeps_ok (w : World B) :
  world_ok w -> world_ok (snd (setup_table w)).
Proof.
  unfold world_ok, setup_table, execute_create_table. world_step.
  intros [Hs _]. destruct (session w) as [t|]; simpl in *.
  - now split.
  - split; apply table_ok_nil.
Qed.

(** *** Rules for statements that keep the invariant *)

Lemma ensures_bind {A C} (m : M B A) (k : A -> M B C)
    (Q : A -> Prop) (R : C -> Prop) :
  ensures m Q -> (forall a, Q a -> ensures (k a) R) -> ensures (bind m k) R.
Proof.
  intros Hm Hk w Hw. unfold bind.
  destruct (Hm w Hw) as [Hw1 Hq]. destruct (m w) as [[a|e] w1]; simpl in *.
  - exact (Hk a (Hq a eq_refl) w1 Hw1).
  - split; [exact Hw1 | discriminate].
Qed.

Lemma ensures_any {A} (m : M B A) (Q : A -> Prop) :
  (forall w, session (snd (m w)) = session w
             /\ committed (snd (m w)) = committed w) ->
  (forall w a, fst (m w) = Ok a -> Q a) ->
  ensures m Q.
Proof.
  intros Hf Hq w Hw. split; [|apply Hq].
  destruct (Hf w) as [Es Ec]. unfold world_ok. now rewrite Es, Ec.
Qed.

Lemma ensures_print (line : pystr) : ensures (@print B line) (fun _ => True).
Proof. apply ensures_any; [intros w; now split | auto]. Qed.

Lemma ensures_input (prompt : pystr) : ensures (@input B prompt) (fun _ => True).
Proof.
  apply ensures_any; [|auto]. intros w. unfold input. world_step.
  destruct (stdin w); now split.
Qed.

Lemma ensures_lift {A} (o : outcome A) : ensures (@lift B A o) (fun a => o = Ok a).
Proof. apply ensures_any; [intros w; now split | auto]. Qed.

Lemma ensures_hash_password (raw : pystr) :
  ensures (hash_password B raw)
    (fun d => forall h, decode d = Ok h -> hash_ok B h).
Proof.
  apply ensures_any.
  - intros w. destruct (@hash_password_frame B raw w) as (Es & Ec & _). now split.
  - intros w a H h Hdec.
    destruct (hash_password B raw w) as [o w'] eqn:E. simpl in H. subst o.
    exact (@hashed_is_ok raw w w' a h E Hdec).
Qed.

Lemma ensures_select (u : pystr) : ensures (@execute_select B u) (fun _ => True).
Proof.
  apply ensures_any; [|auto]. intros w. unfold execute_select. world_step.
  destruct (session w) eqn:E; world_step; rewrite ?E; now split.
Qed.

Lemma ensures_fetchone : ensures (@fetchone B) (fun _ => True).
Proof.
  apply ensures_any; [|auto]. intros w. unfold fetchone.
  destruct (result_set w); now split.
Qed.

Lemma ensures_insert (u h : pystr) :
  hash_ok B h -> ensures (@execute_insert B u h) (fun _ => True).
Proof.
  intros Hh w [Hs Hc]. split; [|auto].
  unfold execute_insert, world_ok in *. world_step.
  destruct (session w) as [t|] eqn:Et; world_step; rewrite ?Et; [|now split].
  destruct ((VARCHAR_MAX <? List.length u)%nat
            || (VARCHAR_MAX <? List.length h)%nat);
    world_step; rewrite ?Et; [now split|].
  destruct (has_key u t) eqn:Hk; world_step; rewrite ?Et; split; auto.
  simpl. now apply table_ok_insert.
Qed.

Lemma ensures_commit : ensures (@commit B) (fun _ => True).
Proof.
  intros w [Hs Hc]. split; [|auto]. unfold commit, world_ok. world_step.
  now split.
Qed.

Lemma ensures_try {A} (body : M B A) (h : exn -> option (M B A)) (Q : A -> Prop) :
  ensures body Q ->
  (forall e handler, h e = Some handler -> ensures handler Q) ->
  ensures (try_except body h) Q.
Proof.
  intros Hb Hh w Hw. unfold try_except.
  destruct (Hb w Hw) as [Hw1 Hq]. destruct (body w) as [[a|e] w1]; simpl in *.
  - split; [exact Hw1 | exact Hq].
  - destruct (h e) as [handler|] eqn:E.
    + exact (Hh e handler E w1 Hw1).
    + split; [exact Hw1 | discriminate].
Qed.

Lemma register_ensures : ensures (@register B) (fun _ => True).
Proof.
  unfold register.
  eapply ensures_bind; [apply ensures_input | intros line _].
  destruct (is_empty (strip line)); [apply ensures_print|].
  eapply ensures_bind; [apply ensures_input | intros line' _].
  destruct (is_empty (strip line')); [apply ensures_print|].
  eapply ensures_bind; [apply ensures_hash_password | intros hashed Hhashed].
  apply ensures_try.
  - eapply ensures_bind; [apply ensures_lift | intros stored Hstored].
    eapply ensures_bind;
      [apply ensures_insert, Hhashed, Hstored | intros _ _].
    eapply ensures_bind; [apply ensures_commit | intros _ _].
    apply ensures_print.
  - intros e handler He. destruct e; try discriminate.
    apply Some_inj in He. subst handler. apply ensures_print.
Qed.

Lemma login_ensures : ensures (@login B) (fun _ => True).
Proof.
  unfold login.
  eapply ensures_bind; [apply ensures_input | intros line _].
  destruct (is_empty (strip line)); [apply ensures_print|].
  eapply ensures_bind; [apply ensures_input | intros line' _].
  eapply ensures_bind; [apply ensures_select | intros _ _].
  eapply ensures_bind; [apply ensures_fetchone | intros [row|] _];
    [|apply ensures_print].
  eapply ensures_bind; [apply ensures_lift | intros stored _].
  eapply ensures_bind; [apply ensures_lift | intros [|] _];
    apply ensures_print.
Qed.

End Invariant.

(** C9.  [register], [login] and [setup_table] keep the table, as the
    connection sees it and as it is committed, with one row per username
    and with every stored hash a non-empty string that [hash_password]
    returned for some password. *)
Theorem operations_keep_invariant
    (B : Backend) (L : backend_laws B) (w : World B) :
  world_ok w ->
  world_ok (snd (register w))
  /\ world_ok (snd (login w))
  /\ world_ok (snd (setup_table w)).
Proof.
  intros H. split; [|split].
  - exact (proj1 (@register_ensures B L w H)).
  - exact (proj1 (@login_ensures B w H)).
  - now apply setup_table_keeps_ok.
Qed.

Lemma operations_keep_invariant_witness :
  let w := ref_world true (Some []) [lit "alice"; lit "s3cret"] in
  world_ok (snd (register w))
  /\ world_ok (snd (login w))
  /\ world_ok (snd (setup_table w)).
Proof.
  apply (@operations_keep_invariant (ref_backend true) (ref_backend_laws true)
           (ref_world true (Some []) [lit "alice"; lit "s3cret"])).
  split; simpl; apply table_ok_nil.
Defined.

(** ** C10: surrounding whitespace *)

(** The lines typed reach [register] and [login] through [strip] only. *)
Lemma register_reads_stripped (B : Backend) (w : World B) (u p u' p' : pystr) :
  strip u = strip u' -> strip p = strip p' ->
  typed [u; p] register w = typed [u'; p'] register w.
Proof.
  intros Hu Hp. unfold typed, register, bind at 1 2 6 7, getpass, input.
  world_step. rewrite Hu.
  destruct (is_empty (strip u')); [reflexivity|].
  world_step. rewrite Hp. reflexivity.
Qed.

Lemma login_reads_stripped (B : Backend) (w : World B) (u p u' p' : pystr) :
  strip u = strip u' -> strip p = strip p' ->
  typed [u; p] login w = typed [u'; p'] login w.
Proof.
  intros Hu Hp. unfold typed, login, bind at 1 2 7 8, getpass, input.
  world_step. rewrite Hu.
  destruct (is_empty (strip u')); [reflexivity|].
  world_step. rewrite Hp. reflexivity.
Qed.

(** C10.  Whitespace typed before and after the username and the password
    changes nothing: [register] and [login] do on the padded lines exactly
    what they do on the bare ones, and a username of whitespace alone is the
    empty username.  For a username and a password with nothing to strip,
    registering with both padded stores the bare username with a digest of
    the bare password, and logging in with both bare then succeeds. *)
Theorem surrounding_whitespace_is_ignored
    (B : Backend) (L : backend_laws B) (w : World B) (a u b a' p b' : pystr) :
  forallb isspace a = true -> forallb isspace b = true ->
  forallb isspace a' = true -> forallb isspace b' = true ->
  typed [a ++ u ++ b; a' ++ p ++ b'] register w = typed [u; p] register w
  /\ typed [a ++ u ++ b; a' ++ p ++ b'] login w = typed [u; p] login w
  /\ typed [a ++ b; p] register w
     = (Ok tt, emit (Print msg_username_empty) (asked_new_username w))
  /\ typed [a ++ b; p] login w
     = (Ok tt, emit (Print msg_username_empty) (asked_username w))
  /\ forall (t : Table) (d : pybytes),
       bare u = true -> bare p = true ->
       (List.length u <= VARCHAR_MAX)%nat ->
       session w = Some t -> has_key u t = false ->
       digest_of B p (urandom w (drawn w)) = Ok d ->
       exists w1 w2,
         typed [a ++ u ++ b; a' ++ p ++ b'] register w = (Ok tt, w1)
         /\ session w1 = Some (t ++ [(u, d)])
         /\ db_log w1 = db_log w ++ [Insert u d; Commit]
         /\ typed [u; p] login w1 = (Ok tt, w2)
         /\ db_log w2 = db_log w1 ++ [Select u]
         /\ console w2
            = console w
              ++ [Prompt (lit "Enter new username: ");
                  Prompt (lit "Enter new password: ");
                  Print msg_registered;
                  Prompt (lit "Username: ");
                  Prompt (lit "Password: ");
                  Print (msg_welcome u)].
Proof.
  intros Ha Hb Ha' Hb'.
  pose proof (strip_surrounding a u b Ha Hb) as Hu.
  pose proof (strip_surrounding a' p b' Ha' Hb') as Hp.
  pose proof (strip_surrounding a [] b Ha Hb) as He.
  change (a ++ [] ++ b) with (a ++ b) in He. change (strip []) with (@nil N) in He.
  split; [|split; [|split; [|split]]].
  - now apply register_reads_stripped.
  - now apply login_reads_stripped.
  - now apply register_empty_username.
  - now apply login_empty_username.
  - intros t d Bu Bp Hlen Ht Hk Hd.
    pose proof (@strip_bare _ Bu) as Su. pose proof (@strip_bare _ Bp) as Sp.
    pose proof (@bare_nonempty _ Bu) as Nu. pose proof (@bare_nonempty _ Bp) as Np.
    pose proof (@digest_storable B L _ _ _ Hd) as Hs.
    pose proof (@register_fresh B w u p t d) as Hreg.
    rewrite Su, Sp in Hreg. cbv zeta in Hreg.
    specialize (Hreg Nu Np Hd Hs Ht Hlen Hk).
    rewrite <- (@register_reads_stripped B w _ _ _ _ Hu Hp) in Hreg.
    eexists. eexists. split; [exact Hreg|].
    split; [reflexivity|]. split; [world_step; now rewrite <- app_assoc|].
    split; [|split].
    + pose proof (@login_found B
                    (emit (Print msg_registered)
                       (set_committed (Some (t ++ [(u, d)]))
                          (sent Commit
                             (set_session (Some (t ++ [(u, d)]))
                                (sent (Insert u d)
                                   (next_draw (asked_new_password w)))))))
                    u p (t ++ [(u, d)]) d [] true) as Hlog.
      rewrite Su, Sp in Hlog. apply Hlog.
      * exact Nu.
      * reflexivity.
      * now apply select_hash_inserted.
      * now apply storable_ascii.
      * exact (@hash_then_verify B L _ _ _ Hd).
    + reflexivity.
    + world_step. now rewrite <- !app_assoc.
Qed.

Lemma surrounding_whitespace_witness :
  let w := exact_world false (Some []) [] in
  let d := (ref_gensalt (mk_rand 0) ++ ref_tag (lit "p") (ref_gensalt (mk_rand 0)))
           ++ enc_bytes (lit "p") in
  typed [lit " " ++ lit "alice" ++ lit "  "; lit "  " ++ lit "p" ++ lit "  "]
    register w
  = typed [lit "alice"; lit "p"] register w
  /\ typed [lit " " ++ lit "alice" ++ lit "  "; lit "  " ++ lit "p" ++ lit "  "]
       login w
     = typed [lit "alice"; lit "p"] login w
  /\ typed [lit " " ++ lit "  "; lit "p"] register w
     = (Ok tt, emit (Print msg_username_empty) (asked_new_username w))
  /\ typed [lit " " ++ lit "  "; lit "p"] login w
     = (Ok tt, emit (Print msg_username_empty) (asked_username w))
  /\ exists w1 w2,
       typed [lit " " ++ lit "alice" ++ lit "  ";
              lit "  " ++ lit "p" ++ lit "  "] register w
       = (Ok tt, w1)
       /\ session w1 = Some ([] ++ [(lit "alice", d)])
       /\ db_log w1 = db_log w ++ [Insert (lit "alice") d; Commit]
       /\ typed [lit "alice"; lit "p"] login w1 = (Ok tt, w2)
       /\ db_log w2 = db_log w1 ++ [Select (lit "alice")]
       /\ console w2
          = console w
            ++ [Prompt (lit "Enter new username: ");
                Prompt (lit "Enter new password: ");
                Print msg_registered;
                Prompt (lit "Username: ");
                Prompt (lit "Password: ");
                Print (msg_welcome (lit "alice"))].
Proof.
  intros w d.
  destruct (@surrounding_whitespace_is_ignored (exact_backend false)
              (exact_backend_laws false) w
              (lit " ") (lit "alice") (lit "  ") (lit "  ") (lit "p") (lit "  ")
              eq_refl eq_refl eq_refl eq_refl)
    as (H1 & H2 & H3 & H4 & H5).
  repeat (split; [assumption|]).
  apply (H5 [] d).
  - reflexivity.
  - reflexivity.
  - vm_compute. lia.
  - reflexivity.
  - reflexivity.
  - vm_compute. reflexivity.
Defined.

(** Registered with a padded password, logged in with the bare one. *)
Example padded_password_logs_in :
  let w1 := snd (typed [lit "alice"; lit "  p  "] register
                   (ref_world false (Some []) [])) in
  let w2 := snd (typed [lit "alice"; lit "p"] login w1) in
  console w2
  = [Prompt (lit "Enter new username: ");
     Prompt (lit "Enter new password: ");
     Print msg_registered;
     Prompt (lit "Username: ");
     Prompt (lit "Password: ");
     Print (msg_welcome (lit "alice"))].
Proof. vm_compute. reflexivity. Qed.

(** ** The menu loop *)

Section Loop.

Variable B : Backend.

Lemma reads_bind {A C} (m : M B A) (k : A -> M B C) :
  reads m -> (forall a, reads (k a)) -> reads (bind m k).
Proof.
  intros Hm Hk w. unfold bind. specialize (Hm w).
  destruct (m w) as [[a|e] w1]; simpl in *; [|exact Hm].
  specialize (Hk a w1). lia.
Qed.

Lemma reads_same {A} (m : M B A) :
  (forall w, stdin (snd (m w)) = stdin w) -> reads m.
Proof. intros H w. now rewrite H. Qed.

Lemma reads_print (line : pystr) : reads (@print B line).
Proof. now apply reads_same. Qed.

Lemma reads_lift {A} (o : outcome A) : reads (@lift B A o).
Proof. now apply reads_same. Qed.

Lemma reads_input (prompt : pystr) : reads (@input B prompt).
Proof.
  intros w. unfold input. world_step.
  destruct (stdin w) eqn:E; world_step; rewrite ?E; simpl; lia.
Qed.

Lemma reads_hash_password (raw : pystr) : reads (hash_password B raw).
Proof.
  apply reads_same. intros w.
  now destruct (@hash_password_frame B raw w) as (_ & _ & _ & _ & E).
Qed.

Lemma reads_select (u : pystr) : reads (@execute_select B u).
Proof.
  apply reads_same. intros w. unfold execute_select. world_step.
  now destruct (session w).
Qed.

Lemma reads_fetchone : reads (@fetchone B).
Proof.
  apply reads_same. intros w. unfold fetchone. now destruct (result_set w).
Qed.

Lemma reads_insert (u h : pystr) : reads (@execute_insert B u h).
Proof.
  apply reads_same. intros w. unfold execute_insert. world_step.
  destruct (session w) as [t|]; [|reflexivity].
  destruct ((VARCHAR_MAX <? List.length u)%nat
            || (VARCHAR_MAX <? List.length h)%nat); [reflexivity|].
  now destruct (has_key u t).
Qed.

Lemma reads_commit : reads (@commit B).
Proof. now apply reads_same. Qed.

Lemma reads_try {A} (body : M B A) (h : exn -> option (M B A)) :
  reads body -> (forall e handler, h e = Some handler -> reads handler) ->
  reads (try_except body h).
Proof.
  intros Hb Hh w. unfold try_except. specialize (Hb w).
  destruct (body w) as [[a|e] w1]; simpl in *; [exact Hb|].
  destruct (h e) as [handler|] eqn:E; [|exact Hb].
  specialize (Hh e handler E w1). lia.
Qed.

Lemma reads_register : reads (@register B).
Proof.
  unfold register.
  apply reads_bind; [apply reads_input | intros line].
  destruct (is_empty (strip line)); [apply reads_print|].
  apply reads_bind; [apply reads_input | intros line'].
  destruct (is_empty (strip line')); [apply reads_print|].
  apply reads_bind; [apply reads_hash_password | intros hashed].
  apply reads_try.
  - apply reads_bind; [apply reads_lift | intros stored].
    apply reads_bind; [apply reads_insert | intros _].
    apply reads_bind; [apply reads_commit | intros _].
    apply reads_print.
  - intros e handler He. destruct e; try discriminate.
    apply Some_inj in He. subst handler. apply reads_print.
Qed.

Lemma reads_login : reads (@login B).
Proof.
  unfold login.
  apply reads_bind; [apply reads_input | intros line].
  destruct (is_empty (strip line)); [apply reads_print|].
  apply reads_bind; [apply reads_input | intros line'].
  apply reads_bind; [apply reads_select | intros _].
  apply reads_bind; [apply reads_fetchone | intros [row|]];
    [|apply reads_print].
  apply reads_bind; [apply reads_lift | intros stored].
  apply reads_bind; [apply reads_lift | intros [|]]; apply reads_print.
Qed.

(** The loop ends within one turn more than there are lines to read. *)
Lemma main_loop_ends (turns : nat) (w : World B) :
  (List.length (stdin w) < turns)%nat -> main_loop turns w <> None.
Proof.
  revert w. induction turns as [|turns IH]; intros w Hlen; [lia|].
  cbn [main_loop]. unfold bind at 1, print at 1, input at 1. world_step.
  destruct (stdin w) as [|line rest] eqn:Ein; [discriminate|].
  world_step.
  destruct (str_eqb (strip line) (lit "3")); [discriminate|].
  match goal with
  | |- context [?body ?w1] =>
      match type of w1 with
      | World B =>
          assert (Hb : reads body)
            by (destruct (str_eqb (strip line) (lit "1"));
                [apply reads_register|];
                destruct (str_eqb (strip line) (lit "2"));
                [apply reads_login | apply reads_print]);
          specialize (Hb w1); destruct (body w1) as [[[]|e] w2]
      end
  end; [|discriminate].
  apply IH. simpl in Hb, Hlen. lia.
Qed.

End Loop.

(** [main] always comes to an end: the loop is given turns enough. *)
Lemma main_ends (B : Backend) (cfg : Config) (w : World B) :
  main cfg w <> None.
Proof.
  unfold main.
  destruct ((print msg_banner ;;; connect B cfg ;;; setup_table) w)
    as [[[]|e] w1]; [|discriminate].
  pose proof (@main_loop_ends B (S (List.length (stdin w1))) w1 (Nat.lt_succ_diag_r _)).
  destruct (main_loop (S (List.length (stdin w1))) w1) as [[[[]|e] w2]|];
    [discriminate | discriminate | contradiction].
Qed.

(** The session of the specification, run from the banner to the farewell. *)
Example scenario_of_the_specification :
  let lines :=
    [lit "1"; lit "alice"; lit "s3cret";
     lit "2"; lit "alice"; lit "s3cret";
     lit "2"; lit "alice"; lit "wrong";
     lit "1"; lit "alice"; lit "anything";
     lit "2"; lit "bob"; lit "x";
     lit "3"] in
  match main ref_config (ref_world false None lines) with
  | Some (Ok tt, w) =>
      printed (console w)
      = [msg_banner;
         msg_menu; msg_registered;
         msg_menu; msg_welcome (lit "alice");
         msg_menu; msg_invalid_credentials;
         msg_menu; msg_username_exists;
         msg_menu; msg_user_not_found;
         msg_menu; msg_goodbye]
      /\ usernames (match committed w with Some t => t | None => [] end)
         = [lit "alice"]
  | _ => False
  end.
Proof. vm_compute. split; reflexivity. Qed.

(** * Further properties of the program *)

(** ** Settings read at start-up *)

Lemma get_env_chosen (env : Environ) (name default : pystr) :
  chosen env name default (setting (get_env env name (Some default))).
Proof.
  unfold chosen, get_env. destruct (env name) as [[|c v]|]; reflexivity.
Qed.

Lemma chosen_nonempty (env : Environ) (name default value : pystr) :
  default <> [] -> chosen env name default value -> value <> [].
Proof.
  unfold chosen. intros Hd H.
  destruct (env name) as [[|c v]|]; subst; [exact Hd | discriminate | exact Hd].
Qed.

(** Host, user and database name each come from their environment variable
    when it is set to something, and from the default ([localhost], [root],
    [login_db]) when it is unset or set to the empty string; so none of the
    three is ever empty. *)
Theorem settings_fall_back_to_defaults
    (B : Backend) (env : Environ) (w w' : World B) (cfg : Config) :
  load_config env w = (Ok cfg, w') ->
  chosen env (lit "DB_HOST") (lit "localhost") (DB_HOST cfg)
  /\ chosen env (lit "DB_USER") (lit "root") (DB_USER cfg)
  /\ chosen env (lit "DB_NAME") (lit "login_db") (DB_NAME cfg)
  /\ DB_HOST cfg <> [] /\ DB_USER cfg <> [] /\ DB_NAME cfg <> [].
Proof.
  unfold load_config, bind, ret. intros H.
  assert (E : cfg
              = {| DB_HOST := setting (get_env env (lit "DB_HOST") (Some (lit "localhost")));
                   DB_USER := setting (get_env env (lit "DB_USER") (Some (lit "root")));
                   DB_PASSWORD := DB_PASSWORD cfg;
                   DB_NAME := setting (get_env env (lit "DB_NAME") (Some (lit "login_db"))) |}).
  { destruct (get_env env (lit "DB_PASSWORD") None) as [v|].
    - apply (f_equal fst) in H. cbn [fst] in H. apply Ok_inj in H. now subst cfg.
    - unfold getpass, input in H.
      destruct (stdin (emit (Prompt (lit "MySQL password: ")) w)) as [|line rest];
        [discriminate|].
      apply (f_equal fst) in H. cbn [fst] in H. apply Ok_inj in H.
      now subst cfg. }
  rewrite E. cbn [DB_HOST DB_USER DB_NAME].
  pose proof (get_env_chosen env (lit "DB_HOST") (lit "localhost")) as Hh.
  pose proof (get_env_chosen env (lit "DB_USER") (lit "root")) as Hu.
  pose proof (get_env_chosen env (lit "DB_NAME") (lit "login_db")) as Hn.
  repeat split; try assumption;
    eapply chosen_nonempty; try eassumption; discriminate.
Qed.

Lemma settings_fall_back_witness :
  let cfg := {| DB_HOST := lit "localhost"; DB_USER := lit "admin";
                DB_PASSWORD := lit "secret"; DB_NAME := lit "login_db" |} in
  chosen ref_environ (lit "DB_HOST") (lit "localhost") (DB_HOST cfg)
  /\ chosen ref_environ (lit "DB_USER") (lit "root") (DB_USER cfg)
  /\ chosen ref_environ (lit "DB_NAME") (lit "login_db") (DB_NAME cfg)
  /\ DB_HOST cfg <> [] /\ DB_USER cfg <> [] /\ DB_NAME cfg <> [].
Proof.
  apply (@settings_fall_back_to_defaults (ref_backend false) ref_environ
           (ref_world false None [lit "secret"])
           (set_stdin [] (emit (Prompt (lit "MySQL password: "))
                            (ref_world false None [lit "secret"])))).
  reflexivity.
Defined.

(** The database password is the environment variable [DB_PASSWORD] when it
    is set to something: nothing is asked and nothing is read.  When it is
    unset or empty, the password is asked for once and the line typed is
    taken as it is, unstripped and possibly empty; at the end of input the
    prompt raises [EOFError]. *)
Theorem password_from_environment_or_prompt
    (B : Backend) (env : Environ) (w : World B) :
  match env (lit "DB_PASSWORD") with
  | Some (c :: v) =>
      exists cfg, load_config env w = (Ok cfg, w) /\ DB_PASSWORD cfg = c :: v
  | _ =>
      match stdin w with
      | line :: rest =>
          exists cfg,
            load_config env w
            = (Ok cfg, set_stdin rest (emit (Prompt (lit "MySQL password: ")) w))
            /\ DB_PASSWORD cfg = line
      | [] =>
          load_config env w
          = (Raise EOFError, emit (Prompt (lit "MySQL password: ")) w)
      end
  end.
Proof.
  unfold load_config, get_env, bind, ret, getpass, input. world_step.
  destruct (env (lit "DB_PASSWORD")) as [[|c v]|]; cbn [is_empty].
  - destruct (stdin w) as [|line rest]; [reflexivity | eexists; split; reflexivity].
  - eexists; split; reflexivity.
  - destruct (stdin w) as [|line rest]; [reflexivity | eexists; split; reflexivity].
Qed.

(** ** Relations every run of a statement respects *)

Section Steps.

Variable B : Backend.
Variable R : World B -> World B -> Prop.
Hypothesis R_refl : forall w, R w w.
Hypothesis R_trans : forall w1 w2 w3, R w1 w2 -> R w2 w3 -> R w1 w3.

Lemma steps_bind {A C} (m : M B A) (k : A -> M B C) :
  steps R m -> (forall a, steps R (k a)) -> steps R (bind m k).
Proof.
  intros Hm Hk w. unfold bind. specialize (Hm w).
  destruct (m w) as [[a|e] w1]; cbn [snd] in *; [|exact Hm].
  exact (R_trans Hm (Hk a w1)).
Qed.

Lemma steps_try {A} (body : M B A) (h : exn -> option (M B A)) :
  steps R body -> (forall e handler, h e = Some handler -> steps R handler) ->
  steps R (try_except body h).
Proof.
  intros Hb Hh w. unfold try_except. specialize (Hb w).
  destruct (body w) as [[a|e] w1]; cbn [snd] in *; [exact Hb|].
  destruct (h e) as [handler|] eqn:E; [|exact Hb].
  exact (R_trans Hb (Hh e handler E w1)).
Qed.

Lemma steps_lift {A} (o : outcome A) : steps R (@lift B A o).
Proof. intros w. apply R_refl. Qed.

(** One turn after another: the whole menu loop respects what a turn
    respects. *)
Lemma steps_main_loop (turns : nat) (w w' : World B) (r : outcome unit) :
  (forall line, steps R (@print B line)) ->
  (forall prompt, steps R (@input B prompt)) ->
  steps R (@register B) -> steps R (@login B) ->
  main_loop turns w = Some (r, w') -> R w w'.
Proof.
  intros Hprint Hinput Hreg Hlog. revert w.
  induction turns as [|turns IH]; intros w; [discriminate|].
  cbn [main_loop].
  pose proof (@steps_bind unit pystr (print msg_menu)
                (fun _ => @input B (lit "Choice: ")) (Hprint msg_menu)
                (fun _ => Hinput (lit "Choice: ")) w) as H1.
  destruct ((print msg_menu ;;; @input B (lit "Choice: ")) w) as [[line|e] w1];
    cbn [snd] in H1.
  - destruct (str_eqb (strip line) (lit "3")).
    + intros E. apply Some_inj in E. now inversion E; subst.
    + match goal with
      | |- context [?body w1] =>
          assert (Hb : steps R body)
            by (destruct (str_eqb (strip line) (lit "1")); [exact Hreg|];
                destruct (str_eqb (strip line) (lit "2"));
                [exact Hlog | apply Hprint]);
          specialize (Hb w1); destruct (body w1) as [[[]|e] w2]
      end; cbn [snd] in Hb.
      * intros E. exact (R_trans (R_trans H1 Hb) (IH w2 E)).
      * intros E. apply Some_inj in E. inversion E; subst.
        exact (R_trans H1 Hb).
  - intros E. apply Some_inj in E. now inversion E; subst.
Qed.

End Steps.

(** Splits a statement along its binds, handlers and branches, leaving the
    primitive steps to [prim]. *)
Ltac split_steps Hrefl Htrans prim :=
  repeat first
    [ apply (@steps_bind _ _ Htrans); [|intros ?]
    | apply (@steps_try _ _ Htrans);
      [|let e := fresh "e" in
        let handler := fresh "handler" in
        let He := fresh "He" in
        intros e handler He; destruct e; try discriminate;
        apply Some_inj in He; subst handler]
    | apply (@steps_lift _ _ Hrefl)
    | match goal with
      | |- steps _ (if ?c then _ else _) => destruct c
      | |- steps _ (match ?x with _ => _ end) => destruct x
      end
    | prim ].

(** *** The table unchanged *)

Lemma same_tables_refl {B} (w : World B) : same_tables w w.
Proof. now split. Qed.

Lemma same_tables_trans {B} (w1 w2 w3 : World B) :
  same_tables w1 w2 -> same_tables w2 w3 -> same_tables w1 w3.
Proof. unfold same_tables. intros [A1 A2] [B1 B2]. split; congruence. Qed.

Lemma print_same_tables {B} (line : pystr) : steps same_tables (@print B line).
Proof. intros w. now split. Qed.

Lemma input_same_tables {B} (prompt : pystr) : steps same_tables (@input B prompt).
Proof.
  intros w. unfold input. world_step. destruct (stdin w); now split.
Qed.

Lemma select_same_tables {B} (u : pystr) : steps same_tables (@execute_select B u).
Proof.
  intros w. unfold execute_select. world_step.
  destruct (session w) eqn:E; split; world_step; now rewrite ?E.
Qed.

Lemma fetchone_same_tables {B} : steps same_tables (@fetchone B).
Proof. intros w. unfold fetchone. destruct (result_set w); now split. Qed.

Lemma hash_password_same_tables {B} (raw : pystr) :
  steps same_tables (hash_password B raw).
Proof.
  intros w. destruct (@hash_password_frame B raw w) as (Es & Ec & _).
  now split.
Qed.

(** *** What is sent *)

Lemma sent_only_refl {B} (ok : Sql -> Prop) (w : World B) : sent_only ok w w.
Proof. exists []. now rewrite app_nil_r. Qed.

Lemma sent_only_trans {B} (ok : Sql -> Prop) (w1 w2 w3 : World B) :
  sent_only ok w1 w2 -> sent_only ok w2 w3 -> sent_only ok w1 w3.
Proof.
  intros (l1 & E1 & F1) (l2 & E2 & F2). exists (l1 ++ l2). split.
  - now rewrite E2, E1, app_assoc.
  - now apply Forall_app.
Qed.

Lemma silent_sent_only {B A} (ok : Sql -> Prop) (m : M B A) :
  (forall w, db_log (snd (m w)) = db_log w) -> steps (sent_only ok) m.
Proof. intros H w. exists []. now rewrite app_nil_r, H. Qed.

Lemma print_sent_only {B} (ok : Sql -> Prop) (line : pystr) :
  steps (sent_only ok) (@print B line).
Proof. now apply silent_sent_only. Qed.

Lemma input_sent_only {B} (ok : Sql -> Prop) (prompt : pystr) :
  steps (sent_only ok) (@input B prompt).
Proof.
  apply silent_sent_only. intros w. unfold input. world_step.
  now destruct (stdin w).
Qed.

Lemma fetchone_sent_only {B} (ok : Sql -> Prop) : steps (sent_only ok) (@fetchone B).
Proof.
  apply silent_sent_only. intros w. unfold fetchone. now destruct (result_set w).
Qed.

Lemma hash_password_sent_only {B} (ok : Sql -> Prop) (raw : pystr) :
  steps (sent_only ok) (hash_password B raw).
Proof.
  apply silent_sent_only. intros w.
  now destruct (@hash_password_frame B raw w) as (_ & _ & _ & E & _).
Qed.

Lemma select_sent_only {B} (ok : Sql -> Prop) (u : pystr) :
  ok (Select u) -> steps (sent_only ok) (@execute_select B u).
Proof.
  intros Hok w. exists [Select u]. split; [|now constructor].
  unfold execute_select. world_step. now destruct (session w).
Qed.

Lemma insert_sent_only {B} (ok : Sql -> Prop) (u h : pystr) :
  ok (Insert u h) -> steps (sent_only ok) (@execute_insert B u h).
Proof.
  intros Hok w. exists [Insert u h]. split; [|now constructor].
  unfold execute_insert. world_step.
  destruct (session w) as [t|]; [|reflexivity].
  destruct ((VARCHAR_MAX <? List.length u)%nat
            || (VARCHAR_MAX <? List.length h)%nat); [reflexivity|].
  now destruct (has_key u t).
Qed.

Lemma commit_sent_only {B} (ok : Sql -> Prop) :
  ok Commit -> steps (sent_only ok) (@commit B).
Proof. intros Hok w. exists [Commit]. split; [reflexivity | now constructor]. Qed.

(** *** What is shown *)

Lemma shown_only_refl {B} (ok : Out -> Prop) (w : World B) : shown_only ok w w.
Proof. exists []. now rewrite app_nil_r. Qed.

Lemma shown_only_trans {B} (ok : Out -> Prop) (w1 w2 w3 : World B) :
  shown_only ok w1 w2 -> shown_only ok w2 w3 -> shown_only ok w1 w3.
Proof.
  intros (l1 & E1 & F1) (l2 & E2 & F2). exists (l1 ++ l2). split.
  - now rewrite E2, E1, app_assoc.
  - now apply Forall_app.
Qed.

Lemma quiet_shown_only {B A} (ok : Out -> Prop) (m : M B A) :
  (forall w, console (snd (m w)) = console w) -> steps (shown_only ok) m.
Proof. intros H w. exists []. now rewrite app_nil_r, H. Qed.

Lemma print_shown_only {B} (ok : Out -> Prop) (line : pystr) :
  ok (Print line) -> steps (shown_only ok) (@print B line).
Proof. intros Hok w. exists [Print line]. split; [reflexivity | now constructor]. Qed.

Lemma input_shown_only {B} (ok : Out -> Prop) (prompt : pystr) :
  ok (Prompt prompt) -> steps (shown_only ok) (@input B prompt).
Proof.
  intros Hok w. exists [Prompt prompt]. split; [|now constructor].
  unfold input. world_step. now destruct (stdin w).
Qed.

Lemma select_shown_only {B} (ok : Out -> Prop) (u : pystr) :
  steps (shown_only ok) (@execute_select B u).
Proof.
  apply quiet_shown_only. intros w. unfold execute_select. world_step.
  now destruct (session w).
Qed.

Lemma fetchone_shown_only {B} (ok : Out -> Prop) : steps (shown_only ok) (@fetchone B).
Proof.
  apply quiet_shown_only. intros w. unfold fetchone. now destruct (result_set w).
Qed.

Lemma hash_password_shown_only {B} (ok : Out -> Prop) (raw : pystr) :
  steps (shown_only ok) (hash_password B raw).
Proof.
  apply quiet_shown_only. intros w.
  now destruct (@hash_password_frame B raw w) as (_ & _ & E & _).
Qed.

Lemma insert_shown_only {B} (ok : Out -> Prop) (u h : pystr) :
  steps (shown_only ok) (@execute_insert B u h).
Proof.
  apply quiet_shown_only. intros w. unfold execute_insert. world_step.
  destruct (session w) as [t|]; [|reflexivity].
  destruct ((VARCHAR_MAX <? List.length u)%nat
            || (VARCHAR_MAX <? List.length h)%nat); [reflexivity|].
  now destruct (has_key u t).
Qed.

Lemma commit_shown_only {B} (ok : Out -> Prop) : steps (shown_only ok) (@commit B).
Proof. now apply quiet_shown_only. Qed.

(** ** What [login] and [register] never do *)

(** [login] only reads: whatever is typed, whatever the table holds and
    whether it returns or raises, the table is afterwards what it was, both
    as the connection sees it and as committed, and nothing went over the
    connection but [SELECT] statements. *)
Theorem login_only_reads (B : Backend) (w : World B) :
  same_tables w (snd (login w))
  /\ sent_only (fun q => exists u, q = Select u) w (snd (login w)).
Proof.
  split.
  - revert w. change (steps same_tables (@login B)). unfold login.
    split_steps (@same_tables_refl B) (@same_tables_trans B)
      ltac:(first [ apply print_same_tables | apply input_same_tables
                  | apply select_same_tables | apply fetchone_same_tables ]).
  - revert w.
    change (steps (sent_only (fun q => exists u, q = Select u)) (@login B)).
    unfold login.
    split_steps (@sent_only_refl B (fun q => exists u, q = Select u))
                (@sent_only_trans B (fun q => exists u, q = Select u))
      ltac:(first [ apply print_sent_only | apply input_sent_only
                  | apply fetchone_sent_only
                  | apply select_sent_only; eexists; reflexivity ]).
Qed.

(** [register] shows nothing but its two prompts and its four messages:
    neither the password typed nor the digest made from it ever reaches the
    terminal, on any path. *)
Theorem register_shows_only_its_messages (B : Backend) (w : World B) :
  shown_only register_says w (snd (register w)).
Proof.
  revert w. change (steps (shown_only register_says) (@register B)).
  unfold register.
  split_steps (@shown_only_refl B register_says)
              (@shown_only_trans B register_says)
    ltac:(first [ apply print_shown_only; unfold register_says; simpl; tauto
                | apply input_shown_only; unfold register_says; simpl; tauto
                | apply hash_password_shown_only
                | apply insert_shown_only | apply commit_shown_only ]).
Qed.

(** [login] shows nothing but its two prompts and its messages, of which
    only the greeting depends on what was typed, and then on the username
    alone: the password and the stored hash never reach the terminal. *)
Theorem login_shows_only_its_messages (B : Backend) (w : World B) :
  shown_only (login_says (hd [] (stdin w))) w (snd (login w)).
Proof.
  unfold login. unfold bind at 1. unfold input at 1. world_step.
  destruct (stdin w) as [|line rest] eqn:Ein; world_step.
  - exists [Prompt (lit "Username: ")]. split; [reflexivity|].
    constructor; [|constructor]. unfold login_says. simpl. tauto.
  - apply shown_only_trans
      with (w2 := set_stdin rest (emit (Prompt (lit "Username: ")) w)).
    + exists [Prompt (lit "Username: ")]. split; [reflexivity|].
      constructor; [|constructor]. unfold login_says. simpl. tauto.
    + generalize (set_stdin rest (emit (Prompt (lit "Username: ")) w)).
      match goal with
      | |- forall w0, shown_only ?P w0 (snd (?m w0)) =>
          change (steps (shown_only P) m)
      end.
      split_steps (@shown_only_refl B (login_says line))
                  (@shown_only_trans B (login_says line))
        ltac:(first [ apply print_shown_only; unfold login_says; simpl; tauto
                    | apply input_shown_only; unfold login_says; simpl; tauto
                    | apply select_shown_only | apply fetchone_shown_only ]).
Qed.

(** ** Looking a user up among the others *)

Lemma select_hash_unique (u h : pystr) (t : Table) :
  NoDup (usernames t) -> In (u, h) t -> select_hash u t = [h].
Proof.
  unfold usernames, select_hash.
  induction t as [|[u' h'] t IH]; intros Hnd Hin; [contradiction|].
  simpl in *. inversion Hnd as [|x l Hx Hl]; subst.
  destruct Hin as [E|Hin].
  - inversion E; subst. rewrite str_eqb_refl. simpl. f_equal.
    apply (select_hash_absent u t).
    destruct (has_key u t) eqn:Hk; [|reflexivity].
    apply has_key_In in Hk. contradiction.
  - destruct (str_eqb u' u) eqn:E.
    + apply str_eqb_eq in E. subst u'. exfalso. apply Hx.
      apply in_map_iff. now exists (u, h).
    + now apply IH.
Qed.

(** With one row per username, [login] decides on the row of the username
    typed, wherever it stands in the table and whoever else is registered:
    it greets the user when [verify_password] accepts the password for that
    row's hash, and reports invalid credentials when it does not. *)
Theorem login_decides_on_own_row
    (B : Backend) (w : World B) (u p h : pystr) (t : Table) (ok : bool) :
  strip u <> [] -> session w = Some t ->
  NoDup (usernames t) -> In (strip u, h) t -> is_ascii h = true ->
  verify_password B (strip p) h = Ok ok ->
  typed [u; p] login w
  = (Ok tt,
     emit (Print (if ok then msg_welcome (strip u) else msg_invalid_credentials))
       (set_result_set [] (sent (Select (strip u)) (asked_password w)))).
Proof.
  intros Hu Ht Hnd Hin Hh Hv.
  exact (@login_found B w u p t h [] ok Hu Ht
           (@select_hash_unique _ _ _ Hnd Hin) Hh Hv).
Qed.

Lemma login_decides_on_own_row_witness :
  let rows := [(lit "bob", lit "$2b$12$else");
               (lit "alice", ref_gensalt (mk_rand 5)
                             ++ ref_tag (lit "s3cret") (ref_gensalt (mk_rand 5)));
               (lit "carol", lit "$2b$12$other")] in
  let w := ref_world false (Some rows) [] in
  typed [lit " alice"; lit "s3cret"] login w
  = (Ok tt,
     emit (Print (if true then msg_welcome (strip (lit " alice"))
                  else msg_invalid_credentials))
       (set_result_set []
          (sent (Select (strip (lit " alice"))) (asked_password w)))).
Proof.
  apply (@login_decides_on_own_row (ref_backend false)
           (ref_world false
              (Some [(lit "bob", lit "$2b$12$else");
                     (lit "alice", ref_gensalt (mk_rand 5)
                                   ++ ref_tag (lit "s3cret") (ref_gensalt (mk_rand 5)));
                     (lit "carol", lit "$2b$12$other")]) [])
           (lit " alice") (lit "s3cret")
           (ref_gensalt (mk_rand 5)
            ++ ref_tag (lit "s3cret") (ref_gensalt (mk_rand 5)))
           [(lit "bob", lit "$2b$12$else");
            (lit "alice", ref_gensalt (mk_rand 5)
                          ++ ref_tag (lit "s3cret") (ref_gensalt (mk_rand 5)));
            (lit "carol", lit "$2b$12$other")] true).
  - vm_compute. discriminate.
  - reflexivity.
  - vm_compute. repeat constructor; simpl; intuition discriminate.
  - right. left. reflexivity.
  - vm_compute. reflexivity.
  - vm_compute. reflexivity.
Defined.

(** ** [register] on every path *)

(** [register] changes the table in one case only: it adds one row, for a
    username that was not there, commits it, and reports success.  On every
    other path - end of input, an empty username or password, a failure of
    the hasher or of the codec, a refused or failed [INSERT] - the table is
    afterwards what it was, as the connection sees it and as committed. *)
Theorem register_changes_table_only_on_success (B : Backend) (w : World B) :
  let r := register w in
  same_tables w (snd r)
  \/ (fst r = Ok tt
      /\ exists t h c,
           let u := strip (hd [] (stdin w)) in
           session w = Some t /\ has_key u t = false
           /\ session (snd r) = Some (t ++ [(u, h)])
           /\ committed (snd r) = session (snd r)
           /\ console (snd r) = c ++ [Print msg_registered]).
Proof.
  cbv zeta. unfold register, bind, getpass, input, print. world_step.
  destruct (stdin w) as [|u rest]; world_step; [left; now split|].
  destruct (is_empty (strip u)); world_step; [left; now split|].
  destruct rest as [|p rest]; world_step; [left; now split|].
  destruct (is_empty (strip p)); world_step; [left; now split|].
  match goal with
  | |- context [hash_password B ?raw ?w0] =>
      destruct (@hash_password_frame B raw w0) as (Fs & Fc & _);
      destruct (hash_password B raw w0) as [[d|e] w1]
  end;
    cbn [snd session committed set_stdin emit] in Fs, Fc; world_step;
    [|left; split; world_step; congruence].
  unfold try_except, bind, lift, execute_insert, commit, print.
  unfold decode. destruct (utf8_decode d) as [h|]; world_step;
    [|left; split; world_step; congruence].
  rewrite Fs.
  destruct (session w) as [t|] eqn:Et; world_step;
    [|left; split; world_step; congruence].
  destruct ((VARCHAR_MAX <? List.length (strip u))%nat
            || (VARCHAR_MAX <? List.length h)%nat); world_step;
    [left; split; world_step; congruence|].
  destruct (has_key (strip u) t) eqn:Hk; world_step.
  - left. split; world_step; congruence.
  - right. split; [reflexivity|].
    exists t, h, (console w1). cbn [hd]. repeat split. exact Hk.
Qed.

(** ** A refused registration *)

(** A second [register] for a username that is taken does not touch the
    first registration: after it the table still holds the first digest
    only, and [login] with the first password succeeds. *)
Theorem refused_registration_keeps_password
    (B : Backend) (L : backend_laws B) (w : World B)
    (u p1 p2 : pystr) (t : Table) (d1 d2 : pybytes) :
  strip u <> [] -> strip p1 <> [] -> strip p2 <> [] ->
  (List.length (strip u) <= VARCHAR_MAX)%nat ->
  session w = Some t -> has_key (strip u) t = false ->
  digest_of B (strip p1) (urandom w (drawn w)) = Ok d1 ->
  digest_of B (strip p2) (urandom w (S (drawn w))) = Ok d2 ->
  exists w1 w2 w3,
    typed [u; p1] register w = (Ok tt, w1)
    /\ typed [u; p2] register w1 = (Ok tt, w2)
    /\ typed [u; p1] login w2 = (Ok tt, w3)
    /\ session w3 = Some (t ++ [(strip u, d1)])
    /\ committed w3 = session w3
    /\ printed (console w3)
       = printed (console w)
         ++ [msg_registered; msg_username_exists; msg_welcome (strip u)].
Proof.
  intros Hu Hp1 Hp2 Hlen Ht Hk Hd1 Hd2.
  pose proof (@digest_storable B L _ _ _ Hd1) as Hs1.
  pose proof (@digest_storable B L _ _ _ Hd2) as Hs2.
  eexists. eexists. eexists. split; [|split; [|split]].
  - exact (@register_fresh B w u p1 t d1 Hu Hp1 Hd1 Hs1 Ht Hlen Hk).
  - eapply (@register_taken B _ u p2 (t ++ [(strip u, d1)]) d2 Hu Hp2).
    + exact Hd2.
    + exact Hs2.
    + reflexivity.
    + exact Hlen.
    + unfold has_key. rewrite existsb_app. simpl.
      now rewrite str_eqb_refl, orb_true_r.
  - eapply (@login_found B _ u p1 (t ++ [(strip u, d1)]) d1 [] true Hu).
    + reflexivity.
    + now apply select_hash_inserted.
    + now apply storable_ascii.
    + exact (@hash_then_verify B L _ _ _ Hd1).
  - world_step. repeat split.
    unfold printed. rewrite !flat_map_app. simpl.
    now rewrite !app_nil_r, <- !app_assoc.
Qed.

Lemma refused_registration_witness :
  let w := ref_world false (Some []) [] in
  let d1 := ref_gensalt (mk_rand 0)
            ++ ref_tag (lit "s3cret") (ref_gensalt (mk_rand 0)) in
  exists w1 w2 w3,
    typed [lit "alice"; lit "s3cret"] register w = (Ok tt, w1)
    /\ typed [lit "alice"; lit "other"] register w1 = (Ok tt, w2)
    /\ typed [lit "alice"; lit "s3cret"] login w2 = (Ok tt, w3)
    /\ session w3 = Some ([] ++ [(strip (lit "alice"), d1)])
    /\ committed w3 = session w3
    /\ printed (console w3)
       = printed (console w)
         ++ [msg_registered; msg_username_exists;
             msg_welcome (strip (lit "alice"))].
Proof.
  apply (@refused_registration_keeps_password (ref_backend false)
           (ref_backend_laws false) (ref_world false (Some []) [])
           (lit "alice") (lit "s3cret") (lit "other") []
           (ref_gensalt (mk_rand 0)
            ++ ref_tag (lit "s3cret") (ref_gensalt (mk_rand 0)))
           (ref_gensalt (mk_rand 1)
            ++ ref_tag (lit "other") (ref_gensalt (mk_rand 1)))).
  - vm_compute. discriminate.
  - vm_compute. discriminate.
  - vm_compute. discriminate.
  - vm_compute. lia.
  - reflexivity.
  - reflexivity.
  - vm_compute. reflexivity.
  - vm_compute. reflexivity.
Defined.

(** ** The program as a whole *)

(** When the driver refuses the connection, [main] stops there: after the
    banner and the diagnostic it exits with status 1, having created no
    table, sent no statement and read no line. *)
Theorem main_stops_at_connection_error
    (B : Backend) (cfg : Config) (w : World B) (errno : Z) (text : pystr) :
  mysql_connect B cfg = ConnectorError errno text ->
  main cfg w
  = Some (Raise (SystemExit 1),
          emit (Print (diagnostic cfg (classify errno) text))
            (emit (Print msg_banner) w)).
Proof.
  intros H. unfold main, bind, connect, print. rewrite H.
  unfold classify, diagnostic, bind, print, exit, raise.
  destruct (errno =? ER_BAD_DB_ERROR)%Z;
    [|destruct (errno =? ER_ACCESS_DENIED_ERROR)%Z]; reflexivity.
Qed.

Lemma main_stops_at_connection_error_witness :
  let cfg := {| DB_HOST := lit "localhost"; DB_USER := lit "root";
                DB_PASSWORD := lit "guess"; DB_NAME := lit "login_db" |} in
  let w := ref_world false None [lit "1"; lit "alice"] in
  main cfg w
  = Some (Raise (SystemExit 1),
          emit (Print (diagnostic cfg (classify 1045)
                         (lit "1045 (28000): Access denied for user")))
            (emit (Print msg_banner) w)).
Proof.
  apply (@main_stops_at_connection_error (ref_backend false)).
  reflexivity.
Defined.

(** A choice that is none of [1], [2], [3] once stripped - the empty line
    included - prints that the option is invalid and the menu is shown
    again; nothing is sent to the database. *)
Theorem invalid_choice_shows_menu_again
    (B : Backend) (w : World B) (line : pystr) (rest : list pystr) (turns : nat) :
  strip line <> lit "1" -> strip line <> lit "2" -> strip line <> lit "3" ->
  main_loop (S turns) (set_stdin (line :: rest) w)
  = main_loop turns
      (set_stdin rest
         (emit (Print msg_invalid_option)
            (emit (Prompt (lit "Choice: ")) (emit (Print msg_menu) w)))).
Proof.
  intros H1 H2 H3. cbn [main_loop].
  unfold bind at 1, print at 1, input at 1. world_step.
  destruct (str_eqb (strip line) (lit "3")) eqn:E3;
    [apply str_eqb_eq in E3; contradiction|].
  destruct (str_eqb (strip line) (lit "1")) eqn:E1;
    [apply str_eqb_eq in E1; contradiction|].
  destruct (str_eqb (strip line) (lit "2")) eqn:E2;
    [apply str_eqb_eq in E2; contradiction|].
  reflexivity.
Qed.

Lemma invalid_choice_witness :
  main_loop 2 (set_stdin (lit " 12 " :: [lit "3"]) (ref_world false (Some []) []))
  = main_loop 1
      (set_stdin [lit "3"]
         (emit (Print msg_invalid_option)
            (emit (Prompt (lit "Choice: "))
               (emit (Print msg_menu) (ref_world false (Some []) []))))).
Proof.
  apply (@invalid_choice_shows_menu_again (ref_backend false)
           (ref_world false (Some []) []) (lit " 12 ") [lit "3"] 1%nat);
    vm_compute; discriminate.
Defined.

(** *** Closing the connection *)

Lemma register_never_closes {B} : steps (sent_only not_closing) (@register B).
Proof.
  unfold register.
  split_steps (@sent_only_refl B not_closing) (@sent_only_trans B not_closing)
    ltac:(first [ apply print_sent_only | apply input_sent_only
                | apply hash_password_sent_only
                | apply insert_sent_only; split; discriminate
                | apply commit_sent_only; split; discriminate ]).
Qed.

Lemma login_never_closes {B} : steps (sent_only not_closing) (@login B).
Proof.
  unfold login.
  split_steps (@sent_only_refl B not_closing) (@sent_only_trans B not_closing)
    ltac:(first [ apply print_sent_only | apply input_sent_only
                | apply fetchone_sent_only
                | apply select_sent_only; split; discriminate ]).
Qed.

Lemma startup_never_closes {B} (cfg : Config) :
  steps (sent_only not_closing)
    (print msg_banner ;;; connect B cfg ;;; setup_table).
Proof.
  split_steps (@sent_only_refl B not_closing) (@sent_only_trans B not_closing)
    ltac:(apply print_sent_only).
  - apply silent_sent_only. intros w. unfold connect.
    destruct (mysql_connect B cfg) as [conn|errno text|e]; [reflexivity| |reflexivity].
    unfold bind, print, exit, raise.
    destruct (errno =? ER_BAD_DB_ERROR)%Z;
      [|destruct (errno =? ER_ACCESS_DENIED_ERROR)%Z]; reflexivity.
  - intros w. exists [CreateTableIfNotExists]. split; [reflexivity|].
    constructor; [split; discriminate | constructor].
Qed.

(** Cursor and connection are closed exactly when the user leaves through
    the menu: then closing them is the last thing sent.  When [main] ends
    with an exception - no connection, end of input, an error of the driver
    or of the hasher - neither is closed. *)
Theorem connection_closed_only_on_exit
    (B : Backend) (cfg : Config) (w w' : World B) (r : outcome unit) :
  main cfg w = Some (r, w') ->
  match r with
  | Ok _ =>
      exists l, db_log w' = db_log w ++ l ++ [CloseCursor; CloseConnection]
                /\ Forall not_closing l
  | Raise _ => sent_only not_closing w w'
  end.
Proof.
  unfold main. pose proof (startup_never_closes cfg w) as H0.
  destruct ((print msg_banner ;;; connect B cfg ;;; setup_table) w)
    as [[[]|e] w1]; cbn [snd] in H0.
  - destruct (main_loop (S (List.length (stdin w1))) w1) as [[[[]|e] w2]|] eqn:El;
      [| |discriminate].
    + pose proof (@steps_main_loop B _
                    (@sent_only_trans B not_closing) _ _ _ _
                    (print_sent_only not_closing) (input_sent_only not_closing)
                    register_never_closes login_never_closes El) as H1.
      destruct (sent_only_trans H0 H1) as (l & El' & Fl).
      intros E. apply Some_inj in E. inversion E; subst. world_step.
      exists l. split; [|exact Fl].
      rewrite El', <- !app_assoc. reflexivity.
    + pose proof (@steps_main_loop B _
                    (@sent_only_trans B not_closing) _ _ _ _
                    (print_sent_only not_closing) (input_sent_only not_closing)
                    register_never_closes login_never_closes El) as H1.
      intros E. apply Some_inj in E. inversion E; subst.
      exact (sent_only_trans H0 H1).
  - intros E. apply Some_inj in E. inversion E; subst. exact H0.
Qed.

Lemma connection_closed_witness :
  let w := ref_world false None [lit "1"; lit "alice"; lit "s3cret"; lit "3"] in
  match main ref_config w with
  | Some (Ok tt, w') =>
      exists l, db_log w' = db_log w ++ l ++ [CloseCursor; CloseConnection]
                /\ Forall not_closing l
  | _ => False
  end.
Proof.
  cbv zeta.
  destruct (main ref_config
              (ref_world false None [lit "1"; lit "alice"; lit "s3cret"; lit "3"]))
    as [[[[]|e] w']|] eqn:E.
  - exact (@connection_closed_only_on_exit (ref_backend false) ref_config _ _ _ E).
  - apply (f_equal (fun o => match o with
                             | Some (Ok _, _) => true
                             | _ => false
                             end)) in E.
    vm_compute in E. discriminate.
  - apply (f_equal (fun o => match o with
                             | Some (Ok _, _) => true
                             | _ => false
                             end)) in E.
    vm_compute in E. discriminate.
Defined.

(** *** The invariant, from start to end *)

(** Whatever is typed and however [main] ends, a table that was well formed
    when the program started (or did not exist) is well formed when it
    ends: one row per username, every hash a digest of the hasher. *)
Theorem main_keeps_invariant
    (B : Backend) (L : backend_laws B) (cfg : Config)
    (w w' : World B) (r : outcome unit) :
  world_ok w -> main cfg w = Some (r, w') -> world_ok w'.
Proof.
  set (R := fun a b : World B => world_ok a -> world_ok b).
  assert (R_refl : forall a, R a a) by (intros a H; exact H).
  assert (R_trans : forall a b c, R a b -> R b c -> R a c)
    by (intros a b c H1 H2 H; exact (H2 (H1 H))).
  assert (Hprint : forall line, steps R (@print B line))
    by (intros line a H; exact (proj1 (@ensures_print B line a H))).
  assert (Hinput : forall prompt, steps R (@input B prompt))
    by (intros prompt a H; exact (proj1 (@ensures_input B prompt a H))).
  assert (Hreg : steps R (@register B))
    by (intros a H; exact (proj1 (@register_ensures B L a H))).
  assert (Hlog : steps R (@login B))
    by (intros a H; exact (proj1 (@login_ensures B a H))).
  assert (Hstart : steps R (print msg_banner ;;; connect B cfg ;;; setup_table)).
  { apply (@steps_bind _ _ R_trans); [apply Hprint | intros _].
    apply (@steps_bind _ _ R_trans); [|intros _ a H; now apply setup_table_keeps_ok].
    intros a H. unfold connect.
    destruct (mysql_connect B cfg) as [conn|errno text|e]; [exact H| |exact H].
    unfold bind, print, exit, raise.
    destruct (errno =? ER_BAD_DB_ERROR)%Z;
      [|destruct (errno =? ER_ACCESS_DENIED_ERROR)%Z]; exact H. }
  intros Hw. unfold main. specialize (Hstart w Hw).
  destruct ((print msg_banner ;;; connect B cfg ;;; setup_table) w)
    as [[[]|e] w1]; cbn [snd] in Hstart.
  - destruct (main_loop (S (List.length (stdin w1))) w1) as [[[[]|e] w2]|] eqn:El;
      [| |discriminate];
      pose proof (@steps_main_loop B R R_trans _ _ _ _
                    Hprint Hinput Hreg Hlog El Hstart) as H2;
      intros E; apply Some_inj in E; inversion E; subst; exact H2.
  - intros E. apply Some_inj in E. inversion E; subst. exact Hstart.
Qed.

Lemma main_keeps_invariant_witness :
  let w := ref_world true None [lit "1"; lit "alice"; lit "s3cret"; lit "3"] in
  match main ref_config w with
  | Some (_, w') => world_ok w'
  | None => True
  end.
Proof.
  cbv zeta.
  destruct (main ref_config
              (ref_world true None [lit "1"; lit "alice"; lit "s3cret"; lit "3"]))
    as [[r w']|] eqn:E; [|exact I].
  refine (@main_keeps_invariant (ref_backend true) (ref_backend_laws true)
            ref_config
            (ref_world true None [lit "1"; lit "alice"; lit "s3cret"; lit "3"])
            w' r _ E).
  split; exact I.
Defined.

(** *** Leaving the menu *)

Lemma consumed_refl {B} (w : World B) : exists l, read_lines w w l.
Proof. now exists []. Qed.

Lemma consumed_trans {B} (w1 w2 w3 : World B) :
  (exists l, read_lines w1 w2 l) -> (exists l, read_lines w2 w3 l) ->
  exists l, read_lines w1 w3 l.
Proof.
  unfold read_lines. intros (l1 & E1) (l2 & E2). exists (l1 ++ l2).
  now rewrite E1, E2, app_assoc.
Qed.

Lemma unread_consumed {B A} (m : M B A) :
  (forall w, stdin (snd (m w)) = stdin w) ->
  steps (fun w w' => exists l, read_lines w w' l) m.
Proof. intros H w. exists []. unfold read_lines. now rewrite H. Qed.

Lemma input_consumed {B} (prompt : pystr) :
  steps (fun w w' => exists l, read_lines w w' l) (@input B prompt).
Proof.
  intros w. unfold input, read_lines. world_step.
  destruct (stdin w) as [|line rest] eqn:E; world_step.
  - exists []. now rewrite E.
  - now exists [line].
Qed.

Lemma hash_password_unread {B} (raw : pystr) (w : World B) :
  stdin (snd (hash_password B raw w)) = stdin w.
Proof. now destruct (@hash_password_frame B raw w) as (_ & _ & _ & _ & E). Qed.

Ltac unread :=
  apply unread_consumed;
  let w := fresh "w" in
  intros w;
  first [ apply hash_password_unread
        | reflexivity
        | unfold execute_select, execute_insert, fetchone; world_step;
          repeat match goal with
                 | |- context [match ?x with _ => _ end] => destruct x
                 end; reflexivity ].

Lemma register_consumed {B} :
  steps (fun w w' => exists l, read_lines w w' l) (@register B).
Proof.
  unfold register.
  split_steps (@consumed_refl B) (@consumed_trans B)
    ltac:(first [ apply input_consumed | unread ]).
Qed.

Lemma login_consumed {B} :
  steps (fun w w' => exists l, read_lines w w' l) (@login B).
Proof.
  unfold login.
  split_steps (@consumed_refl B) (@consumed_trans B)
    ltac:(first [ apply input_consumed | unread ]).
Qed.

Lemma startup_consumed {B} (cfg : Config) :
  steps (fun w w' => exists l, read_lines w w' l)
    (print msg_banner ;;; connect B cfg ;;; setup_table).
Proof.
  apply unread_consumed. intros w. unfold bind, print, connect, setup_table,
    execute_create_table.
  destruct (mysql_connect B cfg) as [conn|errno text|e]; [reflexivity| |reflexivity].
  unfold bind, print, exit, raise.
  destruct (errno =? ER_BAD_DB_ERROR)%Z;
    [|destruct (errno =? ER_ACCESS_DENIED_ERROR)%Z]; reflexivity.
Qed.

(** The loop returns only at a line that reads [3]. *)
Lemma main_loop_returns_at_exit {B} (turns : nat) (w w' : World B) :
  main_loop turns w = Some (Ok tt, w') ->
  exists before line,
    stdin w = before ++ line :: stdin w' /\ strip line = lit "3".
Proof.
  revert w. induction turns as [|turns IH]; intros w; [discriminate|].
  cbn [main_loop]. unfold bind at 1, print at 1, input at 1. world_step.
  destruct (stdin w) as [|line rest]; world_step; [discriminate|].
  destruct (str_eqb (strip line) (lit "3")) eqn:E3.
  - intros E. apply Some_inj in E. inversion E; subst. world_step.
    exists [], line. split; [reflexivity | now apply str_eqb_eq].
  - match goal with
    | |- context [?body ?w1] =>
        match type of w1 with
        | World B =>
            assert (Hb : steps (fun a b => exists l, read_lines a b l) body)
              by (destruct (str_eqb (strip line) (lit "1"));
                  [apply register_consumed|];
                  destruct (str_eqb (strip line) (lit "2"));
                  [apply login_consumed | unread]);
            specialize (Hb w1); destruct (body w1) as [[[]|e] w2]
        end
    end; [|discriminate].
    cbn [snd] in Hb. destruct Hb as (l & El). unfold read_lines in El.
    cbn [stdin set_stdin] in El.
    intros E. destruct (IH w2 E) as (before & line' & Eb & Hs).
    exists (line :: l ++ before), line'. split; [|exact Hs].
    rewrite El, Eb. simpl. now rewrite <- app_assoc.
Qed.

(** [main] returns normally only when [3] was typed at the menu, with or
    without whitespace around it: the lines before it were read, the lines
    after it are left unread.  Without such a line [main] never returns
    normally; it ends with an exception. *)
Theorem main_returns_only_through_exit
    (B : Backend) (cfg : Config) (w w' : World B) :
  main cfg w = Some (Ok tt, w') ->
  exists before line,
    stdin w = before ++ line :: stdin w' /\ strip line = lit "3".
Proof.
  unfold main. pose proof (startup_consumed cfg w) as (l0 & E0).
  unfold read_lines in E0.
  destruct ((print msg_banner ;;; connect B cfg ;;; setup_table) w)
    as [[[]|e] w1]; cbn [snd] in E0; [|discriminate].
  destruct (main_loop (S (List.length (stdin w1))) w1) as [[[[]|e] w2]|] eqn:El;
    [|discriminate|discriminate].
  intros E. apply Some_inj in E. inversion E; subst. world_step.
  destruct (main_loop_returns_at_exit _ _ El) as (before & line & Eb & Hs).
  exists (l0 ++ before), line. split; [|exact Hs].
  now rewrite E0, Eb, <- app_assoc.
Qed.

Lemma main_returns_only_through_exit_witness :
  let w := ref_world false None [lit "2"; lit "bob"; lit "x"; lit " 3"; lit "1"] in
  match main ref_config w with
  | Some (Ok tt, w') =>
      exists before line,
        stdin w = before ++ line :: stdin w' /\ strip line = lit "3"
  | _ => False
  end.
Proof.
  cbv zeta.
  destruct (main ref_config
              (ref_world false None
                 [lit "2"; lit "bob"; lit "x"; lit " 3"; lit "1"]))
    as [[[[]|e] w']|] eqn:E.
  - exact (@main_returns_only_through_exit (ref_backend false) ref_config _ _ E).
  - apply (f_equal (fun o => match o with
                             | Some (Ok _, _) => true
                             | _ => false
                             end)) in E.
    vm_compute in E. discriminate.
  - apply (f_equal (fun o => match o with
                             | Some (Ok _, _) => true
                             | _ => false
                             end)) in E.
    vm_compute in E. discriminate.
Defined.

(** ** What a login attempt reveals *)

Lemma has_key_selected (u : pystr) (t : Table) :
  has_key u t = true -> exists h more, select_hash u t = h :: more.
Proof.
  unfold has_key, select_hash. induction t as [|[u' h'] t IH]; simpl;
    [discriminate|].
  destruct (str_eqb u' u); simpl; [eauto | exact IH].
Qed.

(** For a username that is not empty, [login] answers [User not found]
    exactly when the table has no row for it: whoever can try a login
    learns from the answer whether a username is registered, without
    knowing any password. *)
Theorem login_tells_whether_registered
    (B : Backend) (w : World B) (u p : pystr) (t : Table) :
  strip u <> [] -> session w = Some t ->
  (console (snd (typed [u; p] login w))
   = console (asked_password w) ++ [Print msg_user_not_found])
  <-> has_key (strip u) t = false.
Proof.
  intros Hu Ht. split.
  - intros Hc. destruct (has_key (strip u) t) eqn:Hk; [|reflexivity]. exfalso.
    destruct (has_key_selected _ _ Hk) as (h & more & Hsel).
    rewrite (@login_queries B w u p t Hu Ht), Hsel in Hc.
    unfold typed, bind, fetchone, lift, print in Hc.
    cbn [stdin console result_set set_stdin set_result_set sent emit
         asked_password asked_username snd] in Hc.
    destruct (encode h) as [b|e];
      [destruct (verify_password B (strip p) b) as [[|]|e]|];
      cbn [stdin console result_set set_stdin set_result_set sent emit snd] in Hc;
      try (apply app_inv_head in Hc; discriminate).
    + rewrite <- app_nil_r in Hc at 1. apply app_inv_head in Hc. discriminate.
    + rewrite <- app_nil_r in Hc at 1. apply app_inv_head in Hc. discriminate.
  - intros Hk. now rewrite (@login_not_found B w u p t Hu Ht Hk).
Qed.

Lemma login_tells_whether_registered_witness :
  let t := [(lit "alice", lit "$2b$12$stored")] in
  let w := ref_world false (Some t) [] in
  (console (snd (typed [lit "bob"; lit ""] login w))
   = console (asked_password w) ++ [Print msg_user_not_found])
  <-> has_key (strip (lit "bob")) t = false.
Proof.
  apply (@login_tells_whether_registered (ref_backend false)
           (ref_world false (Some [(lit "alice", lit "$2b$12$stored")]) [])
           (lit "bob") (lit "") [(lit "alice", lit "$2b$12$stored")]).
  - vm_compute. discriminate.
  - reflexivity.
Defined.
